(** * Local planner of the F1/10 race car: a shallow embedding of
      [src/planner/src/planner.cpp].

    [src/planner/include/mpc_tracker.h] declares [propagate_Dynamics] and
    [get_linear_dynamics] (lines 49-50) over matrices of [double]; their
    bodies are not among the sources, and nothing of them is modelled here.

    The C++ [double] is IEEE 754 binary64, which is exactly Rocq's primitive
    [float]; integers are [Z] with the width of the C++ type written out
    where the code converts or wraps; a [std::vector] is a [list] read and
    written by index.  Undefined behaviour of the C++ (an [operator[]] out
    of range, a floating-point value that does not fit the integer type it
    is cast to, a signed overflow, a value-returning function that falls off
    its end), an uncaught exception and a loop that does not come back are
    the three ways a call can fail to return: they are the [fault]s of the
    [outcome] monad below. *)

From Stdlib Require Import ZArith Lia List Floats String.
From stdpp Require Import base option list sets.
Import ListNotations.

Local Open Scope Z_scope.

(* ------------------------------------------------------------------------- *)
(** ** Outcomes of a call *)

Inductive fault : Type :=
| UndefinedBehaviour   (* the C++ standard gives the execution no meaning *)
| OutOfRangeThrown     (* std::out_of_range leaves [std::vector::at] *)
| FuelExhausted.       (* the loop was still running when the fuel ran out *)

Inductive outcome (A : Type) : Type :=
| Ok (a : A)
| Fail (f : fault).

Arguments Ok {A} a.
Arguments Fail {A} f.

#[export] Instance outcome_ret : MRet outcome := fun _ a => Ok a.
#[export] Instance outcome_bind : MBind outcome := fun _ _ k m =>
  match m with
  | Ok a => k a
  | Fail f => Fail f
  end.

(** [for_each f l s]: the body [f] run on the elements of [l] in order,
    threading the state, as a C++ [for] loop over a vector does. *)
Fixpoint for_each {A S : Type} (f : A -> S -> outcome S) (l : list A) (s : S)
  : outcome S :=
  match l with
  | [] => Ok s
  | a :: l' => s' ← f a s; for_each f l' s'
  end.

(** The values [lo, lo+1, ..., hi-1] a loop [for (int i=lo; i<hi; i++)]
    takes (none when [hi <= lo]). *)
Definition int_range (lo hi : Z) : list Z :=
  map (fun k => lo + Z.of_nat k) (seq 0 (Z.to_nat (hi - lo))).

(* ------------------------------------------------------------------------- *)
(** ** Machine numbers *)

Module Machine.

Definition INT_MIN : Z := - 2 ^ 31.
Definition INT_MAX : Z := 2 ^ 31 - 1.
Definition SIZE_MAX : Z := 2 ^ 64 - 1.

Definition in_int (z : Z) : bool := (INT_MIN <=? z) && (z <=? INT_MAX).

(** Conversion to [int] of an integer value of another integer type
    (two's complement wrap-around). *)
Definition wrap_int (z : Z) : Z := (z + 2 ^ 31) mod 2 ^ 32 - 2 ^ 31.

(** Arithmetic in [size_t] (64 bits) and in [unsigned int] (32 bits). *)
Definition wrap_size_t (z : Z) : Z := z mod 2 ^ 64.
Definition wrap_uint (z : Z) : Z := z mod 2 ^ 32.

(** Signed [int] arithmetic: an overflow is undefined behaviour. *)
Definition int_checked (z : Z) : outcome Z :=
  if in_int z then Ok z else Fail UndefinedBehaviour.

(** The integer part of a double, rounded toward zero; [None] for NaN and
    the infinities. *)
Definition trunc (x : float) : option Z :=
  match Prim2SF x with
  | S754_zero _ => Some 0
  | S754_finite s m e =>
      let mag := if 0 <=? e then Z.shiftl (Z.pos m) e
                 else Z.shiftr (Z.pos m) (- e) in
      Some (if s then - mag else mag)
  | S754_infinity _ | S754_nan => None
  end.

(** [static_cast<int>(x)] and [static_cast<size_t>(x)] (also the implicit
    conversions): the truncated value when the type can hold it, undefined
    behaviour otherwise. *)
Definition double_to_int (x : float) : outcome Z :=
  match trunc x with
  | Some z => if in_int z then Ok z else Fail UndefinedBehaviour
  | None => Fail UndefinedBehaviour
  end.

Definition double_to_size_t (x : float) : outcome Z :=
  match trunc x with
  | Some z => if (0 <=? z) && (z <=? SIZE_MAX) then Ok z
              else Fail UndefinedBehaviour
  | None => Fail UndefinedBehaviour
  end.

(** An integer converted to double (round to nearest even). *)
Definition to_double (z : Z) : float :=
  SF2Prim (binary_normalize prec emax z 0 false).

(** [round] of <cmath>: to the nearest integer, halves away from zero. *)
Definition round (x : float) : float :=
  match Prim2SF x with
  | S754_finite s m e =>
      if 0 <=? e then x
      else
        let mag := Z.shiftr (Z.pos m + Z.shiftl 1 (- e - 1)) (- e) in
        if s then (- to_double mag)%float else to_double mag
  | _ => x
  end.

(** A double rounded to the nearest binary32 value, as a double: the
    result of a [float] operation of the C++ is the double operation
    rounded once more (53 >= 2*24+2). *)
Definition to_float32 (x : float) : float :=
  match Prim2SF x with
  | S754_finite s m e =>
      SF2Prim (binary_normalize 24 128 (cond_Zopp s (Z.pos m)) e s)
  | _ => x
  end.

(** An integer converted to [float] (binary32). *)
Definition to_float32_of_Z (z : Z) : float :=
  SF2Prim (binary_normalize 24 128 z 0 false).

Definition isnan (x : float) : bool := is_nan x.
Definition isinf (x : float) : bool := is_infinity x.

End Machine.
Import Machine.

(** [v[i]] of a [std::vector]: undefined behaviour out of range. *)
Definition vec_get {A : Type} (v : list A) (i : Z) : outcome A :=
  if (0 <=? i) && (i <? Z.of_nat (length v)) then
    match v !! Z.to_nat i with
    | Some a => Ok a
    | None => Fail UndefinedBehaviour
    end
  else Fail UndefinedBehaviour.

(** [v[i] = a]. *)
Definition vec_set {A : Type} (v : list A) (i : Z) (a : A) : outcome (list A) :=
  if (0 <=? i) && (i <? Z.of_nat (length v)) then Ok (<[Z.to_nat i := a]> v)
  else Fail UndefinedBehaviour.

(** [v.at(i) = a]: throws out of range. *)
Definition vec_set_at {A : Type} (v : list A) (i : Z) (a : A) : outcome (list A) :=
  if (0 <=? i) && (i <? Z.of_nat (length v)) then Ok (<[Z.to_nat i := a]> v)
  else Fail OutOfRangeThrown.

(* ------------------------------------------------------------------------- *)
(** ** Data model (planner.cpp, lines 20-70 and 127-131; ROS message types) *)

Record Waypoint : Type := mkWaypoint {
  wp_x : float; wp_y : float; wp_heading : float; wp_speed : float }.

Record Quaternion : Type := mkQuaternion {
  q_x : float; q_y : float; q_z : float; q_w : float }.

(** geometry_msgs::Transform, the payload of a TransformStamped. *)
Record Transform : Type := mkTransform {
  translation_x : float; translation_y : float; translation_z : float;
  rotation : Quaternion }.

(** nav_msgs::MapMetaData: [width] and [height] are uint32 cell counts,
    [resolution] a binary32 value (held as the double it converts to), the
    origin's coordinates doubles. *)
Record MapMetaData : Type := mkMapMetaData {
  resolution : float; width : Z; height : Z;
  origin_x : float; origin_y : float }.

(** nav_msgs::OccupancyGrid: [data] is row-major, one int8 per cell. *)
Record OccupancyGrid : Type := mkOccupancyGrid {
  info : MapMetaData; data : list Z }.

(** sensor_msgs::LaserScan: the fields are binary32 values (held here as the
    doubles they convert to). *)
Record LaserScan : Type := mkLaserScan {
  angle_min : float; angle_max : float; angle_increment : float;
  ranges : list float }.

Inductive log_entry : Type :=
| ROS_ERROR_what                 (* ROS_ERROR("%s", ex.what()) *)
| ROS_INFO (msg : string)
| ROS_DEBUG (msg : string).

(** The members of [class Planner] that the modelled functions read or
    write, and the two things they send out: the grids given to
    [map_pub_.publish] and the log lines, both oldest first. *)
Record Planner : Type := mkPlanner {
  steering_options_ : list float;
  start_idx_ : Z;                       (* size_t *)
  end_idx_ : Z;                         (* size_t *)
  angle_increment_ : float;
  truncate_ : bool;
  input_map_ : OccupancyGrid;
  new_obstacles_ : list Z;              (* std::vector<size_t> *)
  clear_obstacles_count_ : Z;           (* int *)
  tf_map_to_laser_ : Transform;
  tf_laser_to_map_ : Transform;
  global_path_ : list (list Waypoint);  (* declared std::vector<Waypoint>,
                                           used as a vector of tracks *)
  map_pub_ : list OccupancyGrid;
  ros_log : list log_entry }.

Definition FREE : Z := 0.
Definition OCCUPIED : Z := 100.

Module Upd.
(** Field updates of [Planner]. *)
Definition steering_options (v : list float) (p : Planner) : Planner :=
  mkPlanner v (start_idx_ p) (end_idx_ p) (angle_increment_ p) (truncate_ p)
    (input_map_ p) (new_obstacles_ p) (clear_obstacles_count_ p)
    (tf_map_to_laser_ p) (tf_laser_to_map_ p) (global_path_ p) (map_pub_ p)
    (ros_log p).
Definition window (s e : Z) (inc : float) (p : Planner) : Planner :=
  mkPlanner (steering_options_ p) s e inc true
    (input_map_ p) (new_obstacles_ p) (clear_obstacles_count_ p)
    (tf_map_to_laser_ p) (tf_laser_to_map_ p) (global_path_ p) (map_pub_ p)
    (ros_log p).
Definition map_data (d : list Z) (p : Planner) : Planner :=
  mkPlanner (steering_options_ p) (start_idx_ p) (end_idx_ p)
    (angle_increment_ p) (truncate_ p)
    (mkOccupancyGrid (info (input_map_ p)) d)
    (new_obstacles_ p) (clear_obstacles_count_ p)
    (tf_map_to_laser_ p) (tf_laser_to_map_ p) (global_path_ p) (map_pub_ p)
    (ros_log p).
Definition new_obstacles (v : list Z) (p : Planner) : Planner :=
  mkPlanner (steering_options_ p) (start_idx_ p) (end_idx_ p)
    (angle_increment_ p) (truncate_ p) (input_map_ p)
    v (clear_obstacles_count_ p)
    (tf_map_to_laser_ p) (tf_laser_to_map_ p) (global_path_ p) (map_pub_ p)
    (ros_log p).
Definition clear_obstacles_count (c : Z) (p : Planner) : Planner :=
  mkPlanner (steering_options_ p) (start_idx_ p) (end_idx_ p)
    (angle_increment_ p) (truncate_ p) (input_map_ p)
    (new_obstacles_ p) c
    (tf_map_to_laser_ p) (tf_laser_to_map_ p) (global_path_ p) (map_pub_ p)
    (ros_log p).
Definition tf_map_to_laser (t : Transform) (p : Planner) : Planner :=
  mkPlanner (steering_options_ p) (start_idx_ p) (end_idx_ p)
    (angle_increment_ p) (truncate_ p) (input_map_ p)
    (new_obstacles_ p) (clear_obstacles_count_ p)
    t (tf_laser_to_map_ p) (global_path_ p) (map_pub_ p)
    (ros_log p).
Definition tf_laser_to_map (t : Transform) (p : Planner) : Planner :=
  mkPlanner (steering_options_ p) (start_idx_ p) (end_idx_ p)
    (angle_increment_ p) (truncate_ p) (input_map_ p)
    (new_obstacles_ p) (clear_obstacles_count_ p)
    (tf_map_to_laser_ p) t (global_path_ p) (map_pub_ p)
    (ros_log p).
Definition global_path (g : list (list Waypoint)) (p : Planner) : Planner :=
  mkPlanner (steering_options_ p) (start_idx_ p) (end_idx_ p)
    (angle_increment_ p) (truncate_ p) (input_map_ p)
    (new_obstacles_ p) (clear_obstacles_count_ p)
    (tf_map_to_laser_ p) (tf_laser_to_map_ p) g (map_pub_ p)
    (ros_log p).
(** [map_pub_.publish(input_map_)]: the grid as it is now goes out. *)
Definition publish_map (p : Planner) : Planner :=
  mkPlanner (steering_options_ p) (start_idx_ p) (end_idx_ p)
    (angle_increment_ p) (truncate_ p) (input_map_ p)
    (new_obstacles_ p) (clear_obstacles_count_ p)
    (tf_map_to_laser_ p) (tf_laser_to_map_ p) (global_path_ p)
    (map_pub_ p ++ [input_map_ p])
    (ros_log p).
Definition log (e : log_entry) (p : Planner) : Planner :=
  mkPlanner (steering_options_ p) (start_idx_ p) (end_idx_ p)
    (angle_increment_ p) (truncate_ p) (input_map_ p)
    (new_obstacles_ p) (clear_obstacles_count_ p)
    (tf_map_to_laser_ p) (tf_laser_to_map_ p) (global_path_ p) (map_pub_ p)
    (ros_log p ++ [e]).
End Upd.

(** What [tf_buffer_.lookupTransform] answers on one call: a transform, or
    [None] when it throws a [tf::TransformException]. *)
Definition lookup_answer : Type := option Transform.

(* ------------------------------------------------------------------------- *)
(** ** Grid Map: [expandObstacles] and [updateStaticMap] *)

Section GridMap.

(** <cmath>. *)
Variables cos sin : float -> float.
(** The yaw that [tf2::Matrix3x3(q).getRPY(roll, pitch, yaw)] gives. *)
Variable getYaw : Quaternion -> float.
(** What [get_data()] reads from the waypoint file (not in planner.cpp). *)
Variable get_data : list (list Waypoint).
(** [inflation_r_] (an [int]; spelt [inflation_r] once, line 365) is used
    but declared nowhere in the class. *)
Variable inflation_r_ : Z.

(** [j*input_map_.info.width + i] (line 369): [width] is unsigned, so the
    arithmetic is done in [unsigned int], and [push_back] converts the
    result to the [int] the vector holds. *)
Definition cell_index (w i j : Z) : Z :=
  wrap_int (wrap_uint (wrap_uint (wrap_uint j * w) + wrap_uint i)).

(** Lines 353-374.  Nothing is compared with the grid's size. *)
Definition expandObstacles (x_map y_map : float) (p : Planner)
  : outcome (list Z * Planner) :=
  let m := info (input_map_ p) in
  x_map_idx ← double_to_int ((x_map - origin_x m) / resolution m)%float;
  y_map_idx ← double_to_int ((y_map - origin_y m) / resolution m)%float;
  let p := Upd.log (ROS_INFO "Reading waypoint data...") p in
  let p := Upd.global_path get_data p in
  let p := Upd.log
    (ROS_INFO "Stored the different tracks as a vector of vector of Waypoints")
    p in
  x_lo ← int_checked (x_map_idx - inflation_r_);
  x_hi ← int_checked (x_map_idx + inflation_r_);
  obstacleIdx ← for_each
    (fun i obstacleIdx =>
       y_lo ← int_checked (y_map_idx - inflation_r_);
       y_hi ← int_checked (y_map_idx + inflation_r_);
       Ok (obstacleIdx ++ map (cell_index (width m) i) (int_range y_lo y_hi)))
    (int_range x_lo x_hi) [];
  Ok (obstacleIdx, p).

(** Lines 328-332: one index of [obstacleIdx]. *)
Definition mark_obstacle (idx : Z) (p : Planner) : outcome Planner :=
  v ← vec_get (data (input_map_ p)) idx;
  if v =? 100 then Ok p
  else
    d ← vec_set (data (input_map_ p)) idx 100;
    Ok (Upd.new_obstacles (new_obstacles_ p ++ [idx]) (Upd.map_data d p)).

(** Lines 315-334: the body of the loop over the scan, at index [i]; the
    state is the planner and the running angle [theta].  The [continue] of
    line 316 also skips the [theta += angle_increment] of line 334. *)
Definition scan_step (scan : LaserScan) (yaw : float) (i : Z)
    (s : Planner * float) : outcome (Planner * float) :=
  let '(p, theta) := s in
  hit ← vec_get (ranges scan) i;
  if isnan hit || isinf hit then Ok (p, theta)
  else
    let x_base_link := (hit * cos theta)%float in
    let y_base_link := (hit * sin theta)%float in
    let tf := tf_laser_to_map_ p in
    let x_map := (x_base_link * cos yaw - y_base_link * sin yaw
                  + translation_x tf)%float in
    let y_map := (x_base_link * sin yaw + y_base_link * cos yaw
                  + translation_y tf)%float in
    '(obstacleIdx, p) ← expandObstacles x_map y_map p;
    p ← for_each mark_obstacle obstacleIdx p;
    Ok (p, (theta + angle_increment scan)%float).

(** Lines 337-347. *)
Definition clear_obstacle (idx : Z) (p : Planner) : outcome Planner :=
  d ← vec_set (data (input_map_ p)) idx 0;
  Ok (Upd.map_data d p).

Definition decay_obstacles (p : Planner) : outcome Planner :=
  c ← int_checked (clear_obstacles_count_ p + 1);
  let p := Upd.clear_obstacles_count c p in
  if 50 <? c then
    p ← for_each clear_obstacle (new_obstacles_ p) p;
    Ok (Upd.clear_obstacles_count 0 (Upd.new_obstacles [] p))
  else Ok p.

(** Lines 286-294: the lookup either replaces the stored transform or is
    caught and logged; the function goes on in both cases. *)
Definition lookup_laser_to_map (lookup : lookup_answer) (p : Planner) : Planner :=
  match lookup with
  | Some t => Upd.tf_laser_to_map t p
  | None => Upd.log ROS_ERROR_what p
  end.

(** The bounds of the loop of line 313 (lines 309-310). *)
Definition scan_start (scan : LaserScan) : Z :=
  wrap_int (Z.of_nat (length (ranges scan)) / 6).
Definition scan_end (scan : LaserScan) : Z :=
  wrap_int (wrap_size_t (5 * Z.of_nat (length (ranges scan))) / 6).

(** Lines 284-351. *)
Definition updateStaticMap (lookup : lookup_answer) (scan : LaserScan)
    (p : Planner) : outcome Planner :=
  let p := lookup_laser_to_map lookup p in
  let yaw := getYaw (rotation (tf_laser_to_map_ p)) in
  let start := scan_start scan in
  let theta := (angle_min scan + to_double start * angle_increment scan)%float in
  '(p, _) ← for_each (scan_step scan yaw)
              (int_range start (scan_end scan)) (p, theta);
  p ← decay_obstacles p;
  Ok (Upd.log (ROS_INFO "Map updated") (Upd.publish_map p)).

End GridMap.

(* ------------------------------------------------------------------------- *)
(** ** Gap-Follower: [closestPoint], [eliminateBubble], [findbestGapIdx],
       [scanCallback] *)

Section GapFollower.

(** The [const double] members the constructor leaves to configuration. *)
Variables bubble_radius_ gap_size_threshold_ gap_threshold_ max_scan_ : float.

(** [std::min_element]: the first element that no later one is [<]. *)
Fixpoint min_element_from (best : Z) (smallest : float) (i : Z)
    (l : list float) : Z :=
  match l with
  | [] => best
  | x :: l' =>
      if (x <? smallest)%float then min_element_from i x (i + 1) l'
      else min_element_from best smallest (i + 1) l'
  end.

(** Lines 376-380. *)
Definition closestPoint (scan_ranges : list float) : Z :=
  match scan_ranges with
  | [] => 0
  | x :: l => min_element_from 0 x 1 l
  end.

(** Lines 382-396 (line 230 calls it [eliminate_bubble]).  [start] and
    [end] are [size_t]: the test [start < 0] of line 390 is never true, and
    a rounded bound below zero does not convert.  The loop stops before
    [end]. *)
Definition eliminateBubble (p : Planner) (scan_ranges : list float)
    (closest_idx : Z) (closest_dist : float) : outcome (list float) :=
  let angle := (bubble_radius_ / closest_dist)%float in
  start ← double_to_size_t
    (round (to_double closest_idx - angle / angle_increment_ p)%float);
  end_ ← double_to_size_t
    (round (to_double closest_idx + angle / angle_increment_ p)%float);
  let size := Z.of_nat (length scan_ranges) in
  let end_ := if size <=? end_ then wrap_size_t (size - 1) else end_ in
  let start := if start <? 0 then 0 else start in
  for_each (fun i v => vec_set_at v i 0%float) (int_range start end_)
    scan_ranges.

(** Lines 413-417, the inner [while]: [l] is what is left of the array
    from [current_idx] on. *)
Fixpoint gap_run (l : list float) (current_size current_idx : Z) : Z * Z :=
  match l with
  | x :: l' =>
      if (gap_threshold_ <? x)%float
      then gap_run l' (current_size + 1) (current_idx + 1)
      else (current_size, current_idx)
  | [] => (current_size, current_idx)
  end.

(** Lines 410-423, the body of the outer [while]: the new [current_idx]
    and [best_idx]. *)
Definition gap_body (scan_ranges : list float) (current_idx : Z)
    (best_idx : list Z) : Z * list Z :=
  let current_start := current_idx in
  let '(current_size, current_idx) :=
    gap_run (drop (Z.to_nat current_idx) scan_ranges) 0 current_idx in
  if (gap_size_threshold_ <? to_double current_size)%float then
    let best :=
      wrap_size_t (current_start + current_start + current_size - 1) / 2 in
    (current_idx, best_idx ++ [wrap_int best])
  else (current_idx, best_idx).

(** Lines 408-424, the outer [while], one unit of fuel per test of its
    condition. *)
Fixpoint gap_loop (fuel : nat) (scan_ranges : list float) (current_idx : Z)
    (best_idx : list Z) : outcome (list Z) :=
  match fuel with
  | O => Fail FuelExhausted
  | S fuel' =>
      if current_idx <? Z.of_nat (length scan_ranges) then
        let '(current_idx, best_idx) :=
          gap_body scan_ranges current_idx best_idx in
        gap_loop fuel' scan_ranges current_idx best_idx
      else Ok best_idx
  end.

(** Lines 399-429. *)
Definition findbestGapIdx (fuel : nat) (scan_ranges : list float)
  : outcome (list Z) :=
  gap_loop fuel scan_ranges 0 [].

(** Lines 210-221: one reading, filtered. *)
Definition filter_range (r : float) : float :=
  if isnan r then 0%float
  else if (max_scan_ <? r)%float || isinf r then max_scan_
  else r.

(** Lines 193-203: the first scan fixes the window and the increment.
    The product is computed in [float]: [180] and the size are converted
    to it. *)
Definition truncate_window (scan_msg : LaserScan) (p : Planner)
  : outcome Planner :=
  if truncate_ p then Ok p
  else
    let size := Z.of_nat (length (ranges scan_msg)) in
    let span := to_float32 (angle_max scan_msg - angle_min scan_msg)%float in
    let ratio := to_float32 (to_float32_of_Z 180 / span)%float in
    truncate_size ←
      double_to_size_t (to_float32 (ratio * to_float32_of_Z size)%float);
    Ok (Upd.window (wrap_size_t (size / 2 - truncate_size / 2))
                   (wrap_size_t (size / 2 + truncate_size / 2))
                   (angle_increment scan_msg) p).

(** Line 238: [best_idx[i]] is an [int] and the half size a [size_t], so
    the difference is taken in [size_t] before it becomes a double. *)
Definition steering_option (p : Planner) (size : Z) (best : Z) : float :=
  (angle_increment_ p * to_double (wrap_size_t (best - size / 2)))%float.

Variables cos sin : float -> float.
Variable getYaw : Quaternion -> float.
Variable get_data : list (list Waypoint).
Variable inflation_r_ : Z.

(** Lines 189-240.  [steering_options_] is the member of line 36: the
    callback only ever appends to it. *)
Definition scanCallback (fuel : nat) (lookup : lookup_answer)
    (scan_msg : LaserScan) (p : Planner) : outcome Planner :=
  p ← updateStaticMap cos sin getYaw get_data inflation_r_ lookup scan_msg p;
  p ← truncate_window scan_msg p;
  let p := Upd.log (ROS_DEBUG "Got truncated start and end indices!") p in
  filtered_ranges ← for_each
    (fun i filtered_ranges =>
       r ← vec_get (ranges scan_msg) i;
       Ok (filtered_ranges ++ [filter_range r]))
    (int_range (start_idx_ p) (end_idx_ p)) [];
  let p := Upd.log (ROS_DEBUG "Filtered scan ranges of nans and infs") p in
  let closest_idx := closestPoint filtered_ranges in
  closest_dist ← vec_get filtered_ranges closest_idx;
  filtered_ranges ← eliminateBubble p filtered_ranges closest_idx closest_dist;
  let p := Upd.log (ROS_DEBUG "Eliminated safety bubble!") p in
  best_idx ← findbestGapIdx fuel filtered_ranges;
  let size := Z.of_nat (length filtered_ranges) in
  Ok (Upd.steering_options
        (steering_options_ p ++ map (steering_option p size) best_idx) p).

End GapFollower.

(** The stages of lines 207-239, each as a function of the scan and of the
    planner that line 205 has reached, that is of its window and increment. *)
Section ScanCycleStages.

Variables bubble_radius_ gap_size_threshold_ gap_threshold_ max_scan_ : float.

(** Lines 207-222: the readings of the window, filtered, in order. *)
Definition filtered_window (scan_msg : LaserScan) (p : Planner)
  : outcome (list float) :=
  for_each
    (fun i filtered_ranges =>
       r ← vec_get (ranges scan_msg) i;
       Ok (filtered_ranges ++ [filter_range max_scan_ r]))
    (int_range (start_idx_ p) (end_idx_ p)) [].

(** Lines 226-230: the filtered readings after the safety bubble around
    the closest of them. *)
Definition bubbled_window (scan_msg : LaserScan) (p : Planner)
  : outcome (list float) :=
  filtered_ranges ← filtered_window scan_msg p;
  let closest_idx := closestPoint filtered_ranges in
  closest_dist ← vec_get filtered_ranges closest_idx;
  eliminateBubble bubble_radius_ p filtered_ranges closest_idx closest_dist.

(** Lines 234-239: the headings of the gaps found in them, in the order
    line 238 pushes them. *)
Definition cycle_headings (fuel : nat) (scan_msg : LaserScan) (p : Planner)
  : outcome (list float) :=
  filtered_ranges ← bubbled_window scan_msg p;
  best_idx ← findbestGapIdx gap_size_threshold_ gap_threshold_ fuel
               filtered_ranges;
  Ok (map (steering_option p (Z.of_nat (length filtered_ranges))) best_idx).

End ScanCycleStages.

(* ------------------------------------------------------------------------- *)
(** ** Waypoint Selector: [findWaypoints] and [checkFeasibility] *)

Section WaypointSelector.

(** [tf2::doTransform] on a pose with [z = 0] and the identity
    orientation: the position's x and y in the target frame. *)
Variable doTransform : Transform -> float * float -> float * float.
(** [getMapIdx] is called (line 470) but defined nowhere in the sources. *)
Variable getMapIdx : float -> float -> Z.
Variable lookahead_d_ : float.
(** [path_num_] (line 445) is declared nowhere in the class. *)
Variable path_num_ : Z.

(** [std::numeric_limits<double>::max()]. *)
Definition DBL_MAX : float := 0x1.fffffffffffffp+1023%float.

Definition lookup_map_to_laser (lookup : lookup_answer) (p : Planner) : Planner :=
  match lookup with
  | Some t => Upd.tf_map_to_laser t p
  | None => Upd.log ROS_ERROR_what p
  end.

(** Lines 452-474, the body of the inner loop at [(i, j)]; the state is
    [(waypoint_d, waypoint_idx)].  Line 454 gives the pose's y the
    waypoint's x; [pow(v, 2)] is [v * v]. *)
Definition candidate (p : Planner) (j : Z) (i : Z) (s : float * Z)
  : outcome (float * Z) :=
  let '(waypoint_d, waypoint_idx) := s in
  track ← vec_get (global_path_ p) i;
  w ← vec_get track j;
  let '(gx, gy) := doTransform (tf_map_to_laser_ p) (wp_x w, wp_x w) in
  if (gx <? 0)%float then Ok (waypoint_d, waypoint_idx)
  else
    let d := PrimFloat.sqrt (gx * gx + gy * gy)%float in
    let diff := PrimFloat.abs (lookahead_d_ - d)%float in
    if (diff <? waypoint_d)%float then
      let waypoint_map_idx := getMapIdx (wp_x w) (wp_y w) in
      v ← vec_get (data (input_map_ p)) waypoint_map_idx;
      if v =? 100 then Ok (waypoint_d, waypoint_idx)
      else Ok (diff, j)
    else Ok (waypoint_d, waypoint_idx).

(** Lines 447-477, the body of the outer loop entered with [i].  The inner
    loop is [for (int j=0; i<global_path_.size(); i++)]: it is [i] that is
    tested and incremented, [j] stays 0, and [i] is the size of
    [global_path_] (or more) when line 477 indexes with it. *)
Definition track_body (p : Planner) (i : Z) (waypoints : list Waypoint)
  : outcome (Z * list Waypoint) :=
  let size := Z.of_nat (length (global_path_ p)) in
  '(_, waypoint_idx) ← for_each (candidate p 0) (int_range i size)
                         (DBL_MAX, -1);
  let i := Z.max i size in
  track ← vec_get (global_path_ p) i;
  w ← vec_get track waypoint_idx;
  Ok (i, waypoints ++ [w]).

(** Lines 445-478: [i] grows by at least one per round, so
    [path_num_ + 1] tests of the condition are enough. *)
Fixpoint tracks_loop (fuel : nat) (p : Planner) (i : Z)
    (waypoints : list Waypoint) : outcome (list Waypoint) :=
  match fuel with
  | O => Fail FuelExhausted
  | S fuel' =>
      if i <? path_num_ then
        '(i, waypoints) ← track_body p i waypoints;
        tracks_loop fuel' p (i + 1) waypoints
      else Ok waypoints
  end.

(** Lines 431-481. *)
Definition findWaypoints (lookup : lookup_answer) (p : Planner)
  : outcome (list Waypoint * Planner) :=
  let p := lookup_map_to_laser lookup p in
  waypoints ← tracks_loop (S (Z.to_nat path_num_)) p 0 [];
  Ok (waypoints, p).

(** Lines 483-508: every option is transformed, nothing is compared or
    returned; control reaches the end of a function that returns a
    [Waypoint]. *)
Definition checkFeasibility (lookup : lookup_answer)
    (waypoint_options : list Waypoint) (p : Planner)
  : outcome (Waypoint * Planner) :=
  let p := lookup_map_to_laser lookup p in
  _ ← for_each
    (fun w (_ : unit) =>
       let _ := doTransform (tf_map_to_laser_ p) (wp_x w, wp_y w) in Ok ())
    waypoint_options ();
  Fail UndefinedBehaviour.

(** Lines 273-275, the end of [egoOdomCallback]: the selector as the
    odometry callback runs it. *)
Definition egoOdomCallback (lookup1 lookup2 : lookup_answer) (p : Planner)
  : outcome (Waypoint * Planner) :=
  '(waypoint_options, p) ← findWaypoints lookup1 p;
  checkFeasibility lookup2 waypoint_options p.

End WaypointSelector.

(* ------------------------------------------------------------------------- *)
(** ** What an update computes, told apart from what it writes

    The cells of a scan ([scan_cells]) depend on the transform in force, the
    map's geometry and the scan only; marking and decay ([mark_cells],
    [clear_cells]) are functions of the cell array and the pending list.
    [updateStaticMap] is shown below to be their composition. *)

(** The row-major indices of the block of cells that the loops of lines
    365-371 run over for a hit in cell [(xi, yi)] of a grid of [w] columns:
    columns [xi - r] up to but not including [xi + r], and in each the rows
    [yi - r] up to but not including [yi + r].  Both loops test with [<], so
    the block is [2 * r] cells a side and has no cell when [r] is 0: it is
    not the square of [2 * r + 1] cells a side centred on the hit, of which
    it leaves out the column [xi + r] and the row [yi + r]. *)
Definition block_cells (w r xi yi : Z) : list Z :=
  concat (map (fun i => map (fun j => j * w + i) (int_range (yi - r) (yi + r)))
              (int_range (xi - r) (xi + r))).

Section GridMapCells.

Variables cos sin : float -> float.
Variable getYaw : Quaternion -> float.
Variable inflation_r_ : Z.

(** The indices [expandObstacles] returns, for a map of geometry [m]. *)
Definition obstacle_cells (m : MapMetaData) (x_map y_map : float)
  : outcome (list Z) :=
  x_map_idx ← double_to_int ((x_map - origin_x m) / resolution m)%float;
  y_map_idx ← double_to_int ((y_map - origin_y m) / resolution m)%float;
  x_lo ← int_checked (x_map_idx - inflation_r_);
  x_hi ← int_checked (x_map_idx + inflation_r_);
  for_each
    (fun i obstacleIdx =>
       y_lo ← int_checked (y_map_idx - inflation_r_);
       y_hi ← int_checked (y_map_idx + inflation_r_);
       Ok (obstacleIdx ++ map (cell_index (width m) i) (int_range y_lo y_hi)))
    (int_range x_lo x_hi) [].

(** The indices of the hits at the scan indices [js], in the order the
    loop of line 313 produces them. *)
Fixpoint cells_loop (scan : LaserScan) (yaw : float) (tf : Transform)
    (m : MapMetaData) (js : list Z) (theta : float) : outcome (list Z) :=
  match js with
  | [] => Ok []
  | i :: js' =>
      hit ← vec_get (ranges scan) i;
      if isnan hit || isinf hit then cells_loop scan yaw tf m js' theta
      else
        let x_base_link := (hit * cos theta)%float in
        let y_base_link := (hit * sin theta)%float in
        let x_map := (x_base_link * cos yaw - y_base_link * sin yaw
                      + translation_x tf)%float in
        let y_map := (x_base_link * sin yaw + y_base_link * cos yaw
                      + translation_y tf)%float in
        idxs ← obstacle_cells m x_map y_map;
        rest ← cells_loop scan yaw tf m js'
                 (theta + angle_increment scan)%float;
        Ok (idxs ++ rest)
  end.

Definition scan_cells (tf : Transform) (m : MapMetaData) (scan : LaserScan)
  : outcome (list Z) :=
  let start := scan_start scan in
  cells_loop scan (getYaw (rotation tf)) tf m
    (int_range start (scan_end scan))
    (angle_min scan + to_double start * angle_increment scan)%float.

End GridMapCells.

(** The transform an update works with: the answer of the lookup, or the
    stored one when the lookup threw. *)
Definition tf_in_force (lookup : lookup_answer) (tf : Transform) : Transform :=
  match lookup with
  | Some t => t
  | None => tf
  end.

Definition in_grid (size : Z) (k : Z) : bool := (0 <=? k) && (k <? size).

(** Lines 326-333 on the cell array [d] and the pending list. *)
Definition mark_cell (s : list Z * list Z) (k : Z) : list Z * list Z :=
  let '(d, pending) := s in
  match d !! Z.to_nat k with
  | Some v => if v =? 100 then (d, pending)
              else (<[Z.to_nat k := 100]> d, pending ++ [k])
  | None => (d, pending)
  end.

Definition mark_cells (cells : list Z) (s : list Z * list Z) : list Z * list Z :=
  fold_left mark_cell cells s.

(** Lines 340-343. *)
Definition clear_cells (pending : list Z) (d : list Z) : list Z :=
  fold_left (fun d k => <[Z.to_nat k := 0]> d) pending d.

(** The cell array and the pending list of a planner. *)
Definition grid_state (p : Planner) : list Z * list Z :=
  (data (input_map_ p), new_obstacles_ p).

(** One update on the cell array, the pending list and the counter: the
    scan's cells are marked, then the counter advances and, past 50, the
    pending cells are cleared (lines 337-347). *)
Definition update_cells (cells : list Z) (s : list Z * list Z) (count : Z)
  : list Z * list Z * Z :=
  let '(d, pending) := mark_cells cells s in
  if 50 <? count + 1 then (clear_cells pending d, [], 0)
  else (d, pending, count + 1).

(** The members an update of the grid has no business with, and the map's
    geometry. *)
Definition frame (p : Planner) :=
  (steering_options_ p, start_idx_ p, end_idx_ p, angle_increment_ p,
   truncate_ p, info (input_map_ p), tf_map_to_laser_ p, tf_laser_to_map_ p).

(** What marking and clearing leave alone: the frame, the counter and the
    grids already published. *)
Definition beside_grid (p : Planner) :=
  (frame p, clear_obstacles_count_ p, map_pub_ p).

(** Every pending index is an index of the cell array. *)
Definition pending_ok (p : Planner) : Prop :=
  Forall (fun k => in_grid (Z.of_nat (length (data (input_map_ p)))) k = true)
         (new_obstacles_ p).

(** The last grid sent to [map_pub_]. *)
Definition published (p : Planner) : option OccupancyGrid := last (map_pub_ p).

(** The value of cell [k]. *)
Definition cell (g : OccupancyGrid) (k : Z) : option Z := data g !! Z.to_nat k.

(** The pending list holds no cell twice, and every cell it holds is
    OCCUPIED. *)
Definition pending_marked (p : Planner) : Prop :=
  NoDup (new_obstacles_ p)
  /\ Forall (fun k => cell (input_map_ p) k = Some OCCUPIED) (new_obstacles_ p).

(** The cell array [d] against an earlier array [d0]: the same length, and
    every cell holds what it held, 100 or 0. *)
Definition written_from (d0 d : list Z) : Prop :=
  length d = length d0
  /\ forall n : nat, d !! n = d0 !! n \/ d !! n = Some 100 \/ d !! n = Some 0.

(** The size of the window that line 195 computes on the first scan, in
    [float]: 180 over the angular span, times the number of readings. *)
Definition window_size (scan_msg : LaserScan) : outcome Z :=
  let size := Z.of_nat (length (ranges scan_msg)) in
  let span := to_float32 (angle_max scan_msg - angle_min scan_msg)%float in
  let ratio := to_float32 (to_float32_of_Z 180 / span)%float in
  double_to_size_t (to_float32 (ratio * to_float32_of_Z size)%float).

Section Runs.

Variables cos sin : float -> float.
Variable getYaw : Quaternion -> float.
Variable get_data : list (list Waypoint).
Variable inflation_r_ : Z.

(** Consecutive scan updates, each with the answer its lookup gets. *)
Definition run_updates (inputs : list (lookup_answer * LaserScan))
    (p : Planner) : outcome Planner :=
  for_each
    (fun '(lookup, scan) =>
       updateStaticMap cos sin getYaw get_data inflation_r_ lookup scan)
    inputs p.

(** Every scan of [inputs] yields cells of the array only.  [tf] is the
    transform stored before the first of them. *)
Fixpoint cells_in_grid (m : MapMetaData) (size : Z) (tf : Transform)
    (inputs : list (lookup_answer * LaserScan)) : bool :=
  match inputs with
  | [] => true
  | (lookup, scan) :: rest =>
      let tf := tf_in_force lookup tf in
      match scan_cells cos sin getYaw inflation_r_ tf m scan with
      | Ok cells =>
          forallb (in_grid size) cells && cells_in_grid m size tf rest
      | Fail _ => false
      end
  end.

(** No scan of [inputs] hits cell [c]. *)
Fixpoint never_hit (c : Z) (m : MapMetaData) (tf : Transform)
    (inputs : list (lookup_answer * LaserScan)) : bool :=
  match inputs with
  | [] => true
  | (lookup, scan) :: rest =>
      let tf := tf_in_force lookup tf in
      match scan_cells cos sin getYaw inflation_r_ tf m scan with
      | Ok cells =>
          negb (existsb (Z.eqb c) cells) && never_hit c m tf rest
      | Fail _ => false
      end
  end.

End Runs.

(* ------------------------------------------------------------------------- *)
(** ** Worked inputs

    [Known] gives <cmath>'s [cos] and [sin] and tf2's yaw at the only
    arguments the worked inputs below need, where their values are exact:
    [cos 0 = 1], [sin 0 = 0] and the yaw of the identity quaternion is [0].
    Everywhere else they answer NaN, so a result computed with them owes
    nothing to a value not listed here. *)

Module Known.

Definition identity_rotation (q : Quaternion) : bool :=
  (q_x q =? 0)%float && (q_y q =? 0)%float && (q_z q =? 0)%float
  && (q_w q =? 1)%float.

Definition cos (t : float) : float := if (t =? 0)%float then 1%float else nan.
Definition sin (t : float) : float := if (t =? 0)%float then t else nan.
Definition getYaw (q : Quaternion) : float :=
  if identity_rotation q then 0%float else nan.
(** [tf2::doTransform] under a transform that does not rotate: the
    translation is added. *)
Definition doTransform (t : Transform) (xy : float * float) : float * float :=
  if identity_rotation (rotation t)
  then (fst xy + translation_x t, snd xy + translation_y t)%float
  else (nan, nan).
End Known.

Module Sample.

Definition q_identity : Quaternion := mkQuaternion 0 0 0 1.
(** The laser sits at (1, 1) of the map, unrotated. *)
Definition tf_at_1_1 : Transform := mkTransform 1 1 0 q_identity.

(** A 4 x 4 map of 1 m cells with its origin at (0, 0), all FREE. *)
Definition map_4x4 : OccupancyGrid :=
  mkOccupancyGrid (mkMapMetaData 1 4 4 0 0) (repeat 0 16).

Definition planner (count : Z) (tf : Transform) : Planner :=
  mkPlanner [] 0 0 0 false map_4x4 [] count tf tf [] [] [].

(** The laser half a metre left of the map's edge, facing it, in row 0
    and in row 2: a hit 1 m ahead falls in cell (0, 0) or (0, 2). *)
Definition tf_row0 : Transform := mkTransform (-0.5) 0.5 0 q_identity.
Definition tf_row2 : Transform := mkTransform (-0.5) 2.5 0 q_identity.

(** Six readings over [-0.5, 2] rad; the loop of line 313 visits indices
    1 to 4, and only index 1 (angle 0) is a number: a hit [r] m ahead. *)
Definition scan_ahead (r : float) : LaserScan :=
  mkLaserScan (-0.5) 2 0.5 [nan; r; nan; nan; nan; nan].

(** Nothing in range: every reading is infinite.  The angles span 180
    units, for which line 195 keeps the whole array. *)
Definition scan_open (n : nat) : LaserScan :=
  mkLaserScan (-90) 90 0.25 (repeat infinity n).

(** A planner whose window was fixed by an earlier scan of [n] readings
    with an increment of 0.25 rad. *)
Definition planner_windowed (n : Z) : Planner :=
  Upd.window 0 n 0.25 (planner 0 tf_at_1_1).



(** A stand-in for [getMapIdx], which planner.cpp calls and does not
    define: the row-major cell of [map_4x4] that holds the point, as lines
    357-358 and 369 compute it, and -1 for a point that is no number. *)
Definition getMapIdx (x y : float) : Z :=
  match trunc x, trunc y with
  | Some i, Some j => j * 4 + i
  | _, _ => -1
  end.

(** The planner with one track loaded. *)
Definition planner_on_track (track : list Waypoint) : Planner :=
  Upd.global_path [track] (planner 0 tf_at_1_1).

End Sample.

(* ------------------------------------------------------------------------- *)
(** * Proofs *)

(** ** The outcome monad and loops *)

Lemma bind_Ok_inv {A B : Type} (m : outcome A) (k : A -> outcome B) (b : B) :
  m ≫= k = Ok b -> exists a, m = Ok a /\ k a = Ok b.
Proof. destruct m as [a|f]; simpl; [eauto | discriminate]. Qed.

Lemma for_each_app {A S : Type} (f : A -> S -> outcome S) (l1 l2 : list A) (s : S) :
  for_each f (l1 ++ l2) s = for_each f l1 s ≫= for_each f l2.
Proof.
  revert s; induction l1 as [|a l1 IH]; intros s; simpl; [reflexivity|].
  destruct (f a s) as [s'|e]; simpl; [apply IH | reflexivity].
Qed.

Lemma for_each_invariant {A S : Type} (I : S -> Prop) (f : A -> S -> outcome S)
    (l : list A) (s s' : S) :
  (forall a s1 s2, a ∈ l -> I s1 -> f a s1 = Ok s2 -> I s2) ->
  I s -> for_each f l s = Ok s' -> I s'.
Proof.
  revert s; induction l as [|a l IH]; intros s Hf Hs Hrun; simpl in Hrun.
  - congruence.
  - apply bind_Ok_inv in Hrun as (s1 & H1 & H2).
    apply (IH s1); [| eapply Hf; eauto; left | exact H2].
    intros; eapply Hf; eauto; right; assumption.
Qed.

Lemma int_range_nil (lo hi : Z) : hi <= lo -> int_range lo hi = [].
Proof. intros H; unfold int_range. replace (Z.to_nat (hi - lo)) with O by lia. reflexivity. Qed.

Lemma int_range_cons (lo hi : Z) :
  lo < hi -> int_range lo hi = lo :: int_range (lo + 1) hi.
Proof.
  intros H; unfold int_range.
  replace (Z.to_nat (hi - lo)) with (S (Z.to_nat (hi - (lo + 1)))) by lia.
  simpl. f_equal; [lia|].
  rewrite <- seq_shift, map_map. apply map_ext; intros; lia.
Qed.

Lemma elem_of_int_range (lo hi k : Z) : k ∈ int_range lo hi <-> lo <= k < hi.
Proof.
  unfold int_range. rewrite list_elem_of_In, in_map_iff. split.
  - intros (n & <- & Hn%in_seq). lia.
  - intros H. exists (Z.to_nat (k - lo)). split; [lia|]. apply in_seq. lia.
Qed.

Lemma length_int_range (lo hi : Z) : length (int_range lo hi) = Z.to_nat (hi - lo).
Proof. unfold int_range. now rewrite length_map, length_seq. Qed.

(** ** Vectors and machine integers *)

Lemma in_grid_true (size k : Z) : in_grid size k = true <-> 0 <= k < size.
Proof. unfold in_grid. rewrite andb_true_iff, Z.leb_le, Z.ltb_lt. tauto. Qed.

Lemma vec_get_Ok {A : Type} (v : list A) (i : Z) (a : A) :
  vec_get v i = Ok a <-> (0 <= i < Z.of_nat (length v) /\ v !! Z.to_nat i = Some a).
Proof.
  unfold vec_get.
  destruct ((0 <=? i) && (i <? Z.of_nat (length v))) eqn:E.
  - apply andb_true_iff in E as [E1%Z.leb_le E2%Z.ltb_lt].
    destruct (v !! Z.to_nat i) eqn:L; split; intros H0.
    + inversion H0; subst; auto with lia.
    + destruct H0 as [_ H0]; congruence.
    + discriminate.
    + destruct H0 as [_ H0]; discriminate.
  - split; [discriminate|]. intros [H0 _].
    apply andb_false_iff in E as [E%Z.leb_gt | E%Z.ltb_ge]; lia.
Qed.

Lemma vec_get_in_range {A : Type} (v : list A) (i : Z) :
  0 <= i < Z.of_nat (length v) -> exists a, vec_get v i = Ok a /\ v !! Z.to_nat i = Some a.
Proof.
  intros H. destruct (lookup_lt_is_Some_2 v (Z.to_nat i)) as [a Ha]; [lia|].
  exists a. split; [|exact Ha]. apply vec_get_Ok. auto.
Qed.

Lemma vec_get_out_of_range {A : Type} (v : list A) (i : Z) :
  ~ (0 <= i < Z.of_nat (length v)) -> vec_get v i = Fail UndefinedBehaviour.
Proof.
  intros H. unfold vec_get.
  destruct ((0 <=? i) && (i <? Z.of_nat (length v))) eqn:E; [|reflexivity].
  apply andb_true_iff in E as [E1%Z.leb_le E2%Z.ltb_lt]. lia.
Qed.

Lemma vec_set_in_range {A : Type} (v : list A) (i : Z) (a : A) :
  0 <= i < Z.of_nat (length v) -> vec_set v i a = Ok (<[Z.to_nat i := a]> v).
Proof.
  intros H. unfold vec_set.
  destruct ((0 <=? i) && (i <? Z.of_nat (length v))) eqn:E; [reflexivity|].
  apply andb_false_iff in E as [E%Z.leb_gt | E%Z.ltb_ge]; lia.
Qed.

Lemma int_checked_Ok (z : Z) : INT_MIN <= z <= INT_MAX -> int_checked z = Ok z.
Proof.
  intros H. unfold int_checked, in_int.
  destruct (INT_MIN <=? z) eqn:E1; destruct (z <=? INT_MAX) eqn:E2; simpl; auto;
    (apply Z.leb_gt in E1 || apply Z.leb_gt in E2); lia.
Qed.

Lemma double_to_int_range (x : float) (z : Z) :
  double_to_int x = Ok z -> INT_MIN <= z <= INT_MAX.
Proof.
  unfold double_to_int. destruct (trunc x) as [t|]; [|discriminate].
  destruct (in_int t) eqn:E; [|discriminate]. intros [= <-].
  unfold in_int in E. apply andb_true_iff in E as [E1%Z.leb_le E2%Z.leb_le]. lia.
Qed.

Lemma wrap_int_small (z : Z) : INT_MIN <= z <= INT_MAX -> wrap_int z = z.
Proof.
  unfold wrap_int, INT_MIN, INT_MAX. intros H.
  rewrite Z.mod_small; lia.
Qed.

Lemma wrap_uint_small (z : Z) : 0 <= z < 2 ^ 32 -> wrap_uint z = z.
Proof. unfold wrap_uint. intros H. apply Z.mod_small. lia. Qed.

(** In a grid of [w] columns whose cell count fits an [int], the index of a
    cell [(i, j)] of the grid is computed without wrap-around. *)
Lemma cell_index_exact (w h i j : Z) :
  0 <= i < w -> 0 <= j < h -> w * h <= INT_MAX ->
  cell_index w i j = j * w + i /\ 0 <= j * w + i < w * h.
Proof.
  intros Hi Hj Hwh. unfold INT_MAX in Hwh.
  assert (Hb : 0 <= j * w + i < w * h) by nia.
  assert (Hjw : 0 <= j * w <= j * w + i) by nia.
  split; [|exact Hb]. unfold cell_index.
  rewrite (wrap_uint_small j) by nia.
  rewrite (wrap_uint_small (j * w)) by lia.
  rewrite (wrap_uint_small i) by nia.
  rewrite (wrap_uint_small (j * w + i)) by lia.
  apply wrap_int_small. unfold INT_MIN, INT_MAX. lia.
Qed.

(** ** [expandObstacles] *)

Lemma bind_Ok {A B : Type} (a : A) (k : A -> outcome B) : Ok a ≫= k = k a.
Proof. reflexivity. Qed.

Lemma for_each_ext {A S : Type} (f g : A -> S -> outcome S) (l : list A) (s : S) :
  (forall a s1, a ∈ l -> f a s1 = g a s1) -> for_each f l s = for_each g l s.
Proof.
  revert s; induction l as [|a l IH]; intros s H; simpl; [reflexivity|].
  rewrite H by left. destruct (g a s) as [s1|e]; simpl; [|reflexivity].
  apply IH. intros; apply H; right; assumption.
Qed.

Lemma for_each_collect {A B : Type} (g : A -> list B) (l : list A) (acc : list B) :
  for_each (fun a acc => Ok (acc ++ g a)) l acc = Ok (acc ++ concat (map g l)).
Proof.
  revert acc; induction l as [|a l IH]; intros acc; simpl.
  - now rewrite app_nil_r.
  - rewrite IH. now rewrite app_assoc.
Qed.

Section ExpandObstacles.

Variable get_data : list (list Waypoint).
Variable inflation_r_ : Z.

(** The indices do not depend on the planner beyond the map's geometry, and
    the call leaves the planner's grid alone. *)
Lemma expandObstacles_cells (x_map y_map : float) (p : Planner) :
  expandObstacles get_data inflation_r_ x_map y_map p =
  obstacle_cells inflation_r_ (info (input_map_ p)) x_map y_map ≫= fun idxs =>
  Ok (idxs,
      Upd.log (ROS_INFO "Stored the different tracks as a vector of vector of Waypoints")
        (Upd.global_path get_data
           (Upd.log (ROS_INFO "Reading waypoint data...") p))).
Proof.
  unfold expandObstacles, obstacle_cells.
  destruct (double_to_int ((x_map - _) / _)) as [xi|]; simpl; [|reflexivity].
  destruct (double_to_int ((y_map - _) / _)) as [yi|]; simpl; [|reflexivity].
  destruct (int_checked (xi - inflation_r_)) as [xlo|]; simpl; [|reflexivity].
  destruct (int_checked (xi + inflation_r_)) as [xhi|]; simpl; [|reflexivity].
  reflexivity.
Qed.

(** With the hit in cell [(xi, yi)] and no overflow, the result is the
    block of columns [xi - r] to [xi + r - 1] and rows [yi - r] to
    [yi + r - 1], every index computed by [cell_index]: no test against the
    grid's size is involved. *)
Lemma obstacle_cells_Ok (m : MapMetaData) (x_map y_map : float) (xi yi : Z) :
  double_to_int ((x_map - origin_x m) / resolution m)%float = Ok xi ->
  double_to_int ((y_map - origin_y m) / resolution m)%float = Ok yi ->
  INT_MIN <= xi - inflation_r_ -> xi + inflation_r_ <= INT_MAX ->
  INT_MIN <= yi - inflation_r_ -> yi + inflation_r_ <= INT_MAX ->
  0 <= inflation_r_ ->
  obstacle_cells inflation_r_ m x_map y_map =
  Ok (concat (map (fun i => map (cell_index (width m) i)
                              (int_range (yi - inflation_r_) (yi + inflation_r_)))
                  (int_range (xi - inflation_r_) (xi + inflation_r_)))).
Proof.
  intros Hx Hy Hx1 Hx2 Hy1 Hy2 Hr. unfold obstacle_cells.
  rewrite Hx, bind_Ok, Hy, bind_Ok.
  rewrite (int_checked_Ok (xi - inflation_r_)), bind_Ok by lia.
  rewrite (int_checked_Ok (xi + inflation_r_)), bind_Ok by lia.
  erewrite for_each_ext.
  - apply (for_each_collect
             (fun i => map (cell_index (width m) i)
                         (int_range (yi - inflation_r_) (yi + inflation_r_)))).
  - intros i acc _. cbv beta.
    rewrite (int_checked_Ok (yi - inflation_r_)), bind_Ok by lia.
    rewrite (int_checked_Ok (yi + inflation_r_)), bind_Ok by lia.
    reflexivity.
Qed.

(** When the block lies inside a grid whose cell count fits an [int], the
    indices computed are the row-major indices of its cells, all of them in
    the array. *)
Lemma block_cells_in_grid (w h xi yi : Z) :
  0 <= inflation_r_ ->
  0 <= xi - inflation_r_ -> xi + inflation_r_ <= w ->
  0 <= yi - inflation_r_ -> yi + inflation_r_ <= h ->
  w * h <= INT_MAX ->
  concat (map (fun i => map (cell_index w i)
                          (int_range (yi - inflation_r_) (yi + inflation_r_)))
              (int_range (xi - inflation_r_) (xi + inflation_r_)))
  = block_cells w inflation_r_ xi yi
  /\ Forall (fun k => 0 <= k < w * h) (block_cells w inflation_r_ xi yi).
Proof.
  intros Hr Hx1 Hx2 Hy1 Hy2 Hwh. unfold block_cells. split.
  - f_equal. apply map_ext_in. intros i Hi%list_elem_of_In%elem_of_int_range.
    apply map_ext_in. intros j Hj%list_elem_of_In%elem_of_int_range.
    apply (cell_index_exact w h); lia.
  - apply Forall_forall. intros k Hk%list_elem_of_In.
    apply in_concat in Hk as (l & Hl & Hk).
    apply in_map_iff in Hl as (i & <- & Hi%list_elem_of_In%elem_of_int_range).
    apply in_map_iff in Hk as (j & <- & Hj%list_elem_of_In%elem_of_int_range).
    apply (cell_index_exact w h); lia.
Qed.

End ExpandObstacles.

(** ** Marking and clearing, on the cell array *)

Lemma mark_cell_length (s : list Z * list Z) (c : Z) :
  length (fst (mark_cell s c)) = length (fst s).
Proof.
  destruct s as [d pend]; simpl.
  destruct (d !! Z.to_nat c) as [v|]; [|reflexivity].
  destruct (v =? 100); simpl; [reflexivity | apply length_insert].
Qed.

Lemma mark_cells_length (cells : list Z) (s : list Z * list Z) :
  length (fst (mark_cells cells s)) = length (fst s).
Proof.
  unfold mark_cells. revert s; induction cells as [|c cells IH]; intros s; simpl.
  - reflexivity.
  - rewrite IH. apply mark_cell_length.
Qed.

Lemma mark_cells_app (l1 l2 : list Z) (s : list Z * list Z) :
  mark_cells (l1 ++ l2) s = mark_cells l2 (mark_cells l1 s).
Proof. unfold mark_cells. apply fold_left_app. Qed.

(** A cell outside [cells] keeps its value. *)
Lemma mark_cells_other (cells : list Z) (s : list Z * list Z) (k : Z) :
  0 <= k -> Forall (fun c => 0 <= c) cells -> k ∉ cells ->
  fst (mark_cells cells s) !! Z.to_nat k = fst s !! Z.to_nat k.
Proof.
  intros Hk. unfold mark_cells.
  revert s; induction cells as [|c cells IH]; intros s Hpos Hnot; simpl.
  - reflexivity.
  - inversion Hpos as [|? ? Hc Hpos']; subst.
    rewrite IH; [| assumption | intros ?; apply Hnot; right; assumption].
    destruct s as [d pend]; simpl.
    destruct (d !! Z.to_nat c) as [v|]; [|reflexivity].
    destruct (v =? 100); simpl; [reflexivity|].
    apply list_lookup_insert_ne. intros E.
    apply Z2Nat.inj in E; [|lia|lia]. subst c. apply Hnot. left.
Qed.

(** An occupied cell stays occupied. *)
Lemma mark_cells_keeps (cells : list Z) (s : list Z * list Z) (n : nat) :
  fst s !! n = Some 100 -> fst (mark_cells cells s) !! n = Some 100.
Proof.
  unfold mark_cells. revert s; induction cells as [|c cells IH]; intros s H; simpl.
  - exact H.
  - apply IH. destruct s as [d pend]; simpl in *.
    destruct (d !! Z.to_nat c) as [v|] eqn:E; [|exact H].
    destruct (v =? 100); simpl; [exact H|].
    destruct (decide (Z.to_nat c = n)) as [<-|Hne].
    + apply list_lookup_insert_eq. eapply lookup_lt_Some; eauto.
    + rewrite list_lookup_insert_ne; auto.
Qed.

(** A cell of [cells] that is a cell of the array ends occupied. *)
Lemma mark_cells_hit (cells : list Z) (s : list Z * list Z) (k : Z) :
  k ∈ cells -> 0 <= k < Z.of_nat (length (fst s)) ->
  fst (mark_cells cells s) !! Z.to_nat k = Some 100.
Proof.
  unfold mark_cells. revert s; induction cells as [|c cells IH]; intros s Hin Hk.
  - inversion Hin.
  - simpl. apply elem_of_cons in Hin as [->|Hin].
    + apply (mark_cells_keeps cells). destruct s as [d pend]; simpl in *.
      destruct (lookup_lt_is_Some_2 d (Z.to_nat c)) as [v Hv]; [lia|].
      rewrite Hv. destruct (v =? 100) eqn:E; simpl.
      * apply Z.eqb_eq in E. congruence.
      * apply list_lookup_insert_eq. lia.
    + apply IH; [assumption|]. rewrite mark_cell_length. assumption.
Qed.

(** The pending list only grows, by cells of [cells]. *)
Lemma mark_cells_pending (cells : list Z) (s : list Z * list Z) :
  exists new, snd (mark_cells cells s) = snd s ++ new /\ new ⊆ cells.
Proof.
  unfold mark_cells. revert s; induction cells as [|c cells IH]; intros s; simpl.
  - exists []. split; [now rewrite app_nil_r | set_solver].
  - destruct (IH (mark_cell s c)) as (new & -> & Hsub).
    destruct s as [d pend]; simpl.
    destruct (d !! Z.to_nat c) as [v|]; simpl.
    + destruct (v =? 100); simpl.
      * exists new. split; [reflexivity | set_solver].
      * exists (c :: new). split.
        -- rewrite <- app_assoc. reflexivity.
        -- intros x Hx. apply elem_of_cons in Hx as [->|Hx]; [left | right; auto].
    + exists new. split; [reflexivity | set_solver].
Qed.

(** A cell of [cells] that was not occupied is pending afterwards. *)
Lemma mark_cells_adds (cells : list Z) (s : list Z * list Z) (k : Z) :
  Forall (fun c => 0 <= c) cells ->
  k ∈ cells -> 0 <= k < Z.of_nat (length (fst s)) ->
  fst s !! Z.to_nat k <> Some 100 ->
  k ∈ snd (mark_cells cells s).
Proof.
  unfold mark_cells.
  revert s; induction cells as [|c cells IH]; intros s Hpos Hin Hk Hfree.
  - inversion Hin.
  - simpl. inversion Hpos as [|? ? Hc Hpos']; subst.
    destruct (decide (k = c)) as [->|Hne].
    + destruct (mark_cells_pending cells (mark_cell s c)) as (new & E & _).
      unfold mark_cells in E. rewrite E.
      destruct s as [d pend]; simpl in *.
      destruct (lookup_lt_is_Some_2 d (Z.to_nat c)) as [v Hv]; [lia|].
      rewrite Hv. destruct (v =? 100) eqn:E100; simpl.
      * apply Z.eqb_eq in E100. congruence.
      * rewrite !elem_of_app, list_elem_of_singleton. auto.
    + apply elem_of_cons in Hin as [->|Hin]; [congruence|].
      apply IH; [assumption | assumption | now rewrite mark_cell_length |].
      destruct s as [d pend]; simpl in *.
      destruct (d !! Z.to_nat c) as [v|]; [|exact Hfree].
      destruct (v =? 100); simpl; [exact Hfree|].
      rewrite list_lookup_insert_ne; [exact Hfree|].
      intros E. apply Z2Nat.inj in E; lia.
Qed.

Lemma clear_cells_length (pend d : list Z) :
  length (clear_cells pend d) = length d.
Proof.
  unfold clear_cells. revert d; induction pend as [|c pend IH]; intros d; simpl.
  - reflexivity.
  - rewrite IH. apply length_insert.
Qed.

Lemma clear_cells_keeps_free (pend d : list Z) (n : nat) :
  d !! n = Some 0 -> clear_cells pend d !! n = Some 0.
Proof.
  unfold clear_cells. revert d; induction pend as [|a pend IH]; intros d H0; simpl.
  - exact H0.
  - apply IH. destruct (decide (Z.to_nat a = n)) as [<-|Hne].
    + apply list_lookup_insert_eq. eapply lookup_lt_Some; eauto.
    + rewrite list_lookup_insert_ne; auto.
Qed.

(** A pending cell is FREE after the clearing. *)
Lemma clear_cells_pending (pend d : list Z) (k : Z) :
  k ∈ pend -> 0 <= k < Z.of_nat (length d) ->
  clear_cells pend d !! Z.to_nat k = Some 0.
Proof.
  revert d; induction pend as [|c pend IH]; intros d Hin Hk.
  - inversion Hin.
  - destruct (decide (k ∈ pend)) as [Hp|Hp].
    + apply (IH (<[Z.to_nat c := 0]> d)); [assumption | now rewrite length_insert].
    + apply elem_of_cons in Hin as [->|Hin]; [|contradiction].
      apply (clear_cells_keeps_free pend (<[Z.to_nat c := 0]> d)).
      apply list_lookup_insert_eq. lia.
Qed.

(** The clearing writes nothing but FREE: a cell is FREE after it or as
    before. *)
Lemma clear_cells_lookup (pend d : list Z) (n : nat) :
  clear_cells pend d !! n = Some 0 \/ clear_cells pend d !! n = d !! n.
Proof.
  unfold clear_cells. revert d; induction pend as [|c pend IH]; intros d; simpl.
  - right; reflexivity.
  - destruct (IH (<[Z.to_nat c := 0]> d)) as [H|H]; [left; exact H|].
    rewrite H. destruct (decide (Z.to_nat c = n)) as [<-|Hne].
    + destruct (d !! Z.to_nat c) eqn:E.
      * left. apply list_lookup_insert_eq. eapply lookup_lt_Some; eauto.
      * right. rewrite list_insert_ge by (apply lookup_ge_None_1; exact E).
        exact E.
    + right. apply list_lookup_insert_ne. exact Hne.
Qed.

(** ** [updateStaticMap] is marking, decay and publication *)

Section UpdateSpec.

Variables cos sin : float -> float.
Variable getYaw : Quaternion -> float.
Variable get_data : list (list Waypoint).
Variable inflation_r_ : Z.

Let size (p : Planner) : Z := Z.of_nat (length (data (input_map_ p))).

Lemma mark_obstacle_Ok (idx : Z) (p : Planner) :
  0 <= idx < size p ->
  exists p', mark_obstacle idx p = Ok p'
    /\ grid_state p' = mark_cell (grid_state p) idx
    /\ beside_grid p' = beside_grid p.
Proof.
  intros H. unfold mark_obstacle, grid_state, mark_cell.
  destruct (vec_get_in_range (data (input_map_ p)) idx H) as (v & -> & ->).
  rewrite bind_Ok. destruct (v =? 100).
  - exists p. auto.
  - rewrite vec_set_in_range, bind_Ok by exact H. eexists. split; [reflexivity|].
    split; reflexivity.
Qed.

Lemma mark_loop_Ok (cells : list Z) (p : Planner) :
  Forall (fun k => in_grid (size p) k = true) cells ->
  exists p', for_each mark_obstacle cells p = Ok p'
    /\ grid_state p' = mark_cells cells (grid_state p)
    /\ beside_grid p' = beside_grid p.
Proof.
  revert p; induction cells as [|c cells IH]; intros p Hall.
  - exists p. auto.
  - inversion Hall as [|? ? Hc Hall']; subst. apply in_grid_true in Hc.
    destruct (mark_obstacle_Ok c p Hc) as (p1 & E1 & G1 & B1).
    destruct (IH p1) as (p2 & E2 & G2 & B2).
    { unfold size. change (data (input_map_ p1)) with (fst (grid_state p1)).
      rewrite G1, mark_cell_length. exact Hall'. }
    exists p2. cbn [for_each]. rewrite E1, bind_Ok. split; [exact E2|].
    split; [| congruence]. rewrite G2, G1. reflexivity.
Qed.

Lemma size_grid_state (p p' : Planner) (cells : list Z) :
  grid_state p' = mark_cells cells (grid_state p) -> size p' = size p.
Proof.
  intros G. unfold size. change (data (input_map_ p')) with (fst (grid_state p')).
  rewrite G, mark_cells_length. reflexivity.
Qed.

Lemma scan_step_unfold (scan : LaserScan) (yaw : float) (i : Z) (p : Planner)
    (theta : float) :
  scan_step cos sin get_data inflation_r_ scan yaw i (p, theta) =
  vec_get (ranges scan) i ≫= fun hit =>
  if isnan hit || isinf hit then Ok (p, theta)
  else
    expandObstacles get_data inflation_r_
      (hit * cos theta * cos yaw - hit * sin theta * sin yaw
       + translation_x (tf_laser_to_map_ p))%float
      (hit * cos theta * sin yaw + hit * sin theta * cos yaw
       + translation_y (tf_laser_to_map_ p))%float p
    ≫= fun '(obstacleIdx, p) =>
    for_each mark_obstacle obstacleIdx p ≫= fun p =>
    Ok (p, (theta + angle_increment scan)%float).
Proof. reflexivity. Qed.

(** The loop of line 313 marks the cells of the hits, in order, and touches
    nothing else but the log and the path [expandObstacles] reloads. *)
Lemma scan_loop_Ok (scan : LaserScan) (yaw : float) (js : list Z) :
  forall (p : Planner) (theta : float) (cells : list Z),
    cells_loop cos sin inflation_r_ scan yaw (tf_laser_to_map_ p)
      (info (input_map_ p)) js theta = Ok cells ->
    Forall (fun k => in_grid (size p) k = true) cells ->
    exists p' theta',
      for_each (scan_step cos sin get_data inflation_r_ scan yaw) js (p, theta)
        = Ok (p', theta')
      /\ grid_state p' = mark_cells cells (grid_state p)
      /\ beside_grid p' = beside_grid p.
Proof.
  induction js as [|i js IH]; intros p theta cells Hcells Hall.
  - simpl in Hcells. injection Hcells as <-. exists p, theta. auto.
  - cbn [cells_loop] in Hcells. cbn [for_each]. rewrite scan_step_unfold.
    destruct (vec_get (ranges scan) i) as [hit|]; [|discriminate].
    rewrite bind_Ok in Hcells. rewrite bind_Ok.
    destruct (isnan hit || isinf hit).
    + rewrite bind_Ok. apply IH; assumption.
    + cbv zeta in Hcells |- *.
      apply bind_Ok_inv in Hcells as (idxs & Hidx & Hcells).
      apply bind_Ok_inv in Hcells as (rest & Hrest & [= <-]).
      apply Forall_app in Hall as [Hall1 Hall2].
      rewrite expandObstacles_cells, Hidx, !bind_Ok.
      set (p1 := Upd.log _ (Upd.global_path _ (Upd.log _ p))).
      destruct (mark_loop_Ok idxs p1 Hall1) as (p2 & E2 & G2 & B2).
      rewrite E2, !bind_Ok.
      change (beside_grid p1) with (beside_grid p) in B2.
      change (grid_state p1) with (grid_state p) in G2.
      change (size p1) with (size p) in Hall1.
      assert (F2 : frame p2 = frame p)
        by exact (f_equal (fun t => fst (fst t)) B2).
      assert (T2 : tf_laser_to_map_ p2 = tf_laser_to_map_ p)
        by exact (f_equal snd F2).
      assert (I2 : info (input_map_ p2) = info (input_map_ p))
        by exact (f_equal (fun t => snd (fst (fst t))) F2).
      destruct (IH p2 (theta + angle_increment scan)%float rest) as (p3 & th3 & E3 & G3 & B3).
      * rewrite T2, I2. exact Hrest.
      * rewrite (size_grid_state p p2 idxs G2). exact Hall2.
      * exists p3, th3. split; [exact E3|]. split.
        -- rewrite G3, G2, mark_cells_app. reflexivity.
        -- rewrite B3, B2. reflexivity.
Qed.

Lemma clear_loop_Ok (pend : list Z) (p : Planner) :
  Forall (fun k => in_grid (size p) k = true) pend ->
  exists p', for_each clear_obstacle pend p = Ok p'
    /\ data (input_map_ p') = clear_cells pend (data (input_map_ p))
    /\ new_obstacles_ p' = new_obstacles_ p
    /\ beside_grid p' = beside_grid p.
Proof.
  revert p; induction pend as [|c pend IH]; intros p Hall.
  - exists p. auto.
  - inversion Hall as [|? ? Hc Hall']; subst. apply in_grid_true in Hc.
    cbn [for_each].
    change (clear_obstacle c p)
      with (vec_set (data (input_map_ p)) c 0 ≫= fun d => Ok (Upd.map_data d p)).
    rewrite vec_set_in_range, !bind_Ok by exact Hc.
    destruct (IH (Upd.map_data (<[Z.to_nat c := 0]> (data (input_map_ p))) p))
      as (p2 & E2 & D2 & N2 & B2).
    { unfold size; simpl. rewrite length_insert. exact Hall'. }
    exists p2. split; [exact E2|]. split; [exact D2|]. split; [exact N2|exact B2].
Qed.

End UpdateSpec.

Lemma mark_cells_pending_in_grid (n : Z) (cells : list Z) (s : list Z * list Z) :
  Forall (fun k => in_grid n k = true) (snd s) ->
  Forall (fun k => in_grid n k = true) cells ->
  Forall (fun k => in_grid n k = true) (snd (mark_cells cells s)).
Proof.
  intros Hs Hc. destruct (mark_cells_pending cells s) as (new & -> & Hsub).
  apply Forall_app. split; [exact Hs|].
  apply Forall_forall. intros k Hk.
  rewrite Forall_forall in Hc. apply Hc, Hsub, Hk.
Qed.

Section UpdateStaticMap.

Variables cos sin : float -> float.
Variable getYaw : Quaternion -> float.
Variable get_data : list (list Waypoint).
Variable inflation_r_ : Z.

Let size (p : Planner) : Z := Z.of_nat (length (data (input_map_ p))).

Lemma decay_obstacles_Ok (p : Planner) :
  pending_ok p ->
  INT_MIN <= clear_obstacles_count_ p + 1 <= INT_MAX ->
  exists p', decay_obstacles p = Ok p'
    /\ (grid_state p', clear_obstacles_count_ p')
       = (if 50 <? clear_obstacles_count_ p + 1
          then (clear_cells (new_obstacles_ p) (data (input_map_ p)), [], 0)
          else (grid_state p, clear_obstacles_count_ p + 1))
    /\ frame p' = frame p /\ map_pub_ p' = map_pub_ p.
Proof.
  intros Hok Hc. unfold decay_obstacles.
  rewrite int_checked_Ok, bind_Ok by exact Hc. cbv zeta.
  destruct (50 <? clear_obstacles_count_ p + 1).
  - destruct (clear_loop_Ok (new_obstacles_ p)
                (Upd.clear_obstacles_count (clear_obstacles_count_ p + 1) p))
      as (p1 & E1 & D1 & N1 & B1); [exact Hok|].
    change (new_obstacles_ (Upd.clear_obstacles_count _ p)) with (new_obstacles_ p).
    rewrite E1, bind_Ok. eexists. split; [reflexivity|].
    unfold grid_state; simpl. rewrite D1. split; [reflexivity|].
    split.
    + exact (f_equal (fun t => fst (fst t)) B1).
    + exact (f_equal snd B1).
  - eexists. split; [reflexivity|]. auto.
Qed.

(** An update whose scan yields cells of the array returns, and what it
    leaves is [update_cells] of what it found, published. *)
Lemma updateStaticMap_Ok (lookup : lookup_answer) (scan : LaserScan)
    (p : Planner) (cells : list Z) :
  scan_cells cos sin getYaw inflation_r_
    (tf_in_force lookup (tf_laser_to_map_ p)) (info (input_map_ p)) scan
    = Ok cells ->
  Forall (fun k => in_grid (size p) k = true) cells ->
  pending_ok p ->
  INT_MIN <= clear_obstacles_count_ p + 1 <= INT_MAX ->
  exists p',
    updateStaticMap cos sin getYaw get_data inflation_r_ lookup scan p = Ok p'
    /\ (grid_state p', clear_obstacles_count_ p')
       = update_cells cells (grid_state p) (clear_obstacles_count_ p)
    /\ map_pub_ p' = map_pub_ p ++ [input_map_ p']
    /\ frame p' = frame (lookup_laser_to_map lookup p).
Proof.
  intros Hcells Hall Hok Hc. unfold updateStaticMap. cbv zeta.
  set (p0 := lookup_laser_to_map lookup p).
  assert (T0 : tf_laser_to_map_ p0 = tf_in_force lookup (tf_laser_to_map_ p))
    by (destruct lookup; reflexivity).
  assert (I0 : input_map_ p0 = input_map_ p) by (destruct lookup; reflexivity).
  assert (N0 : new_obstacles_ p0 = new_obstacles_ p) by (destruct lookup; reflexivity).
  assert (C0 : clear_obstacles_count_ p0 = clear_obstacles_count_ p)
    by (destruct lookup; reflexivity).
  assert (M0 : map_pub_ p0 = map_pub_ p) by (destruct lookup; reflexivity).
  unfold scan_cells in Hcells. rewrite <- T0, <- I0 in Hcells.
  destruct (scan_loop_Ok cos sin get_data inflation_r_ scan _ _ p0 _ cells Hcells)
    as (p1 & th1 & E1 & G1 & B1).
  { rewrite I0. exact Hall. }
  rewrite E1, bind_Ok.
  assert (F1 : frame p1 = frame p0) by exact (f_equal (fun t => fst (fst t)) B1).
  assert (C1 : clear_obstacles_count_ p1 = clear_obstacles_count_ p)
    by (rewrite <- C0; exact (f_equal (fun t => snd (fst t)) B1)).
  assert (M1 : map_pub_ p1 = map_pub_ p)
    by (rewrite <- M0; exact (f_equal snd B1)).
  assert (G1' : grid_state p1 = mark_cells cells (grid_state p))
    by (rewrite G1; unfold grid_state; rewrite I0, N0; reflexivity).
  destruct (decay_obstacles_Ok p1) as (p2 & E2 & G2 & F2 & M2).
  { unfold pending_ok.
    change (new_obstacles_ p1) with (snd (grid_state p1)).
    change (data (input_map_ p1)) with (fst (grid_state p1)).
    rewrite G1', mark_cells_length.
    apply mark_cells_pending_in_grid; [exact Hok | exact Hall]. }
  { rewrite C1. exact Hc. }
  rewrite E2, bind_Ok. eexists. split; [reflexivity|].
  split; [|split].
  - change (grid_state (Upd.log _ (Upd.publish_map p2))) with (grid_state p2).
    change (clear_obstacles_count_ (Upd.log _ (Upd.publish_map p2)))
      with (clear_obstacles_count_ p2).
    rewrite G2, C1. unfold update_cells.
    change (new_obstacles_ p1) with (snd (grid_state p1)).
    change (data (input_map_ p1)) with (fst (grid_state p1)).
    rewrite G1'. destruct (mark_cells cells (grid_state p)) as [d pend].
    destruct (50 <? clear_obstacles_count_ p + 1); reflexivity.
  - simpl. rewrite M2, M1. reflexivity.
  - change (frame (Upd.log _ (Upd.publish_map p2))) with (frame p2).
    rewrite F2, F1. reflexivity.
Qed.

End UpdateStaticMap.

(* ------------------------------------------------------------------------- *)
(** * The claims *)

(** ** C1: the cells a hit marks *)

(** What the code does for a hit whose block of cells lies inside the grid
    (a grid whose cell count fits an [int] and is the length of its array):
    [expandObstacles] returns the row-major indices of [block_cells], every
    one of them in [0, width*height), and the marking loop of lines 326-333
    marks exactly those cells.  Nothing here rests on a comparison with the
    grid's size: the code makes none. *)
Lemma expandObstacles_block_in_grid
    (get_data : list (list Waypoint)) (r : Z) (x_map y_map : float)
    (p : Planner) (xi yi : Z) :
  let m := info (input_map_ p) in
  double_to_int ((x_map - origin_x m) / resolution m)%float = Ok xi ->
  double_to_int ((y_map - origin_y m) / resolution m)%float = Ok yi ->
  0 <= r ->
  0 <= xi - r -> xi + r <= width m ->
  0 <= yi - r -> yi + r <= height m ->
  width m * height m <= INT_MAX ->
  Z.of_nat (length (data (input_map_ p))) = width m * height m ->
  exists p1 p2,
    expandObstacles get_data r x_map y_map p
      = Ok (block_cells (width m) r xi yi, p1)
    /\ Forall (fun k => 0 <= k < width m * height m)
              (block_cells (width m) r xi yi)
    /\ for_each mark_obstacle (block_cells (width m) r xi yi) p1 = Ok p2
    /\ forall k, 0 <= k ->
         (cell (input_map_ p2) k = Some OCCUPIED
          <-> k ∈ block_cells (width m) r xi yi
              \/ cell (input_map_ p) k = Some OCCUPIED).
Proof.
  intros m Hx Hy Hr Hx1 Hx2 Hy1 Hy2 Hwh Hlen. subst m.
  set (m := info (input_map_ p)) in *.
  pose proof (double_to_int_range _ _ Hx) as Rx.
  pose proof (double_to_int_range _ _ Hy) as Ry.
  unfold INT_MIN, INT_MAX in *.
  assert (Bx : xi + r <= 2 ^ 31 - 1).
  { destruct (Z_le_gt_dec (height m) 0); [lia | nia]. }
  assert (By : yi + r <= 2 ^ 31 - 1).
  { destruct (Z_le_gt_dec (width m) 0); [lia | nia]. }
  destruct (block_cells_in_grid r (width m) (height m) xi yi)
    as [Ew Hall]; try assumption.
  rewrite expandObstacles_cells.
  fold m.
  rewrite (obstacle_cells_Ok r m x_map y_map xi yi Hx Hy)
    by (unfold INT_MIN, INT_MAX; lia).
  rewrite Ew, bind_Ok.
  set (p1 := Upd.log _ (Upd.global_path _ (Upd.log _ p))).
  assert (Hgrid : Forall (fun k => in_grid (Z.of_nat (length (data (input_map_ p1)))) k = true)
                         (block_cells (width m) r xi yi)).
  { change (data (input_map_ p1)) with (data (input_map_ p)). rewrite Hlen.
    eapply Forall_impl; [exact Hall|]. intros k Hk. apply in_grid_true. exact Hk. }
  destruct (mark_loop_Ok _ p1 Hgrid) as (p2 & E2 & G2 & _).
  exists p1, p2. split; [reflexivity|]. split; [exact Hall|]. split; [exact E2|].
  intros k Hk. unfold cell, OCCUPIED.
  change (data (input_map_ p2)) with (fst (grid_state p2)). rewrite G2.
  change (grid_state p1) with (grid_state p).
  assert (Hpos : Forall (fun c => 0 <= c) (block_cells (width m) r xi yi)).
  { eapply Forall_impl; [exact Hall|]. intros c Hc. simpl in Hc. lia. }
  split.
  - intros H. destruct (decide (k ∈ block_cells (width m) r xi yi)) as [Hin|Hin];
      [left; exact Hin | right].
    rewrite mark_cells_other in H by assumption. exact H.
  - intros [Hin|Hocc].
    + apply mark_cells_hit; [exact Hin|]. simpl. rewrite Hlen.
      rewrite Forall_forall in Hall. apply Hall, Hin.
    + apply mark_cells_keeps. exact Hocc.
Qed.

(** A hit in cell (2, 2) of the 4 x 4 map, radius 1: the block is columns
    1-2, rows 1-2, cells 5, 9, 6 and 10. *)
Lemma expandObstacles_block_in_grid_witness :
  exists p1 p2,
    expandObstacles [] 1 2 2 (Sample.planner 0 Sample.tf_at_1_1)
      = Ok ([5; 9; 6; 10], p1)
    /\ Forall (fun k => 0 <= k < 4 * 4) [5; 9; 6; 10]
    /\ for_each mark_obstacle [5; 9; 6; 10] p1 = Ok p2
    /\ forall k, 0 <= k ->
         (cell (input_map_ p2) k = Some OCCUPIED
          <-> k ∈ [5; 9; 6; 10]
              \/ cell (input_map_ (Sample.planner 0 Sample.tf_at_1_1)) k
                 = Some OCCUPIED).
Proof.
  apply (expandObstacles_block_in_grid [] 1 2 2
           (Sample.planner 0 Sample.tf_at_1_1) 2 2);
    solve [ vm_compute; reflexivity | lia | vm_compute; discriminate ].
Defined.

(** C1: the code does not do what the claim says.  No computed index is
    compared with the grid's size, clamped or discarded.  With a radius of 1
    a hit in cell (0, 0) of the 4 x 4 map yields the indices -5, -1, -4 and
    0: three of them are outside [0, 16), and the update that meets such a
    hit reads the cell array at -5 (line 328, undefined behaviour).  A hit
    in cell (0, 2) yields 3, 7, 4 and 8: the two cells of column -1 are not
    left out, they come back as cells 3 and 7, in column 3 of the rows
    above, and the update marks them OCCUPIED and puts them on the pending
    list. *)
Lemma expandObstacles_not_clamped :
  (exists p1, expandObstacles [] 1 0.5 0.5 (Sample.planner 0 Sample.tf_row0)
              = Ok ([-5; -1; -4; 0], p1))
  /\ updateStaticMap Known.cos Known.sin Known.getYaw [] 1
       (Some Sample.tf_row0) (Sample.scan_ahead 1)
       (Sample.planner 0 Sample.tf_row0)
     = Fail UndefinedBehaviour
  /\ (exists p2,
        updateStaticMap Known.cos Known.sin Known.getYaw [] 1
          (Some Sample.tf_row2) (Sample.scan_ahead 1)
          (Sample.planner 0 Sample.tf_row2) = Ok p2
        /\ new_obstacles_ p2 = [3; 7; 4; 8]
        /\ cell (input_map_ p2) 3 = Some OCCUPIED
        /\ cell (input_map_ p2) 7 = Some OCCUPIED).
Proof.
  split; [|split].
  - eexists. vm_compute. reflexivity.
  - vm_compute. reflexivity.
  - eexists. split; [vm_compute; reflexivity|].
    repeat split.
Qed.

(** ** What any update that returns has done *)

Section UpdateInversion.

Variables cos sin : float -> float.
Variable getYaw : Quaternion -> float.
Variable get_data : list (list Waypoint).
Variable inflation_r_ : Z.

Lemma int_checked_inv (z c : Z) : int_checked z = Ok c -> c = z.
Proof. unfold int_checked. destruct (in_int z); congruence. Qed.

Lemma mark_obstacle_inv (idx : Z) (p p' : Planner) :
  mark_obstacle idx p = Ok p' ->
  beside_grid p' = beside_grid p /\ ros_log p' = ros_log p.
Proof.
  unfold mark_obstacle. intros H.
  apply bind_Ok_inv in H as (v & _ & H). destruct (v =? 100).
  - injection H as <-. auto.
  - apply bind_Ok_inv in H as (d & _ & [= <-]). auto.
Qed.

Lemma clear_obstacle_inv (idx : Z) (p p' : Planner) :
  clear_obstacle idx p = Ok p' ->
  beside_grid p' = beside_grid p /\ ros_log p' = ros_log p.
Proof.
  unfold clear_obstacle. intros H.
  apply bind_Ok_inv in H as (d & _ & [= <-]). auto.
Qed.

Lemma scan_step_inv (scan : LaserScan) (yaw : float) (i : Z)
    (s s' : Planner * float) :
  scan_step cos sin get_data inflation_r_ scan yaw i s = Ok s' ->
  beside_grid (fst s') = beside_grid (fst s)
  /\ ros_log (fst s) `prefix_of` ros_log (fst s').
Proof.
  destruct s as [p theta]. rewrite scan_step_unfold. intros H.
  apply bind_Ok_inv in H as (hit & _ & H).
  destruct (isnan hit || isinf hit).
  - injection H as <-. split; reflexivity.
  - rewrite expandObstacles_cells in H.
    apply bind_Ok_inv in H as ([idxs p1] & H1 & H).
    apply bind_Ok_inv in H1 as (idxs' & _ & [= <- <-]).
    apply bind_Ok_inv in H as (p2 & H2 & [= <-]).
    apply (for_each_invariant
             (fun q => beside_grid q = beside_grid p
                       /\ ros_log p `prefix_of` ros_log q)) in H2.
    + exact H2.
    + intros a q1 q2 _ [B L] Hm. apply mark_obstacle_inv in Hm as [B' L'].
      split; congruence.
    + split; [reflexivity|]. simpl. rewrite <- app_assoc. apply prefix_app_r.
      reflexivity.
Qed.

(** Whatever the lookup answered and whatever the scan held, an update that
    returns has kept the transform in force, advanced (or reset) the
    counter, published the grid it leaves and only added to the log. *)
Lemma updateStaticMap_inv (lookup : lookup_answer) (scan : LaserScan)
    (p p' : Planner) :
  updateStaticMap cos sin getYaw get_data inflation_r_ lookup scan p = Ok p' ->
  frame p' = frame (lookup_laser_to_map lookup p)
  /\ clear_obstacles_count_ p'
     = (if 50 <? clear_obstacles_count_ p + 1 then 0
        else clear_obstacles_count_ p + 1)
  /\ map_pub_ p' = map_pub_ p ++ [input_map_ p']
  /\ ros_log (lookup_laser_to_map lookup p) `prefix_of` ros_log p'.
Proof.
  unfold updateStaticMap. cbv zeta. set (p0 := lookup_laser_to_map lookup p).
  assert (C0 : clear_obstacles_count_ p0 = clear_obstacles_count_ p)
    by (destruct lookup; reflexivity).
  assert (M0 : map_pub_ p0 = map_pub_ p) by (destruct lookup; reflexivity).
  intros H. apply bind_Ok_inv in H as ([p1 th1] & H1 & H).
  apply bind_Ok_inv in H as (p2 & H2 & [= <-]).
  apply (for_each_invariant
           (fun s => beside_grid (fst s) = beside_grid p0
                     /\ ros_log p0 `prefix_of` ros_log (fst s))) in H1.
  2:{ intros i s1 s2 _ [B L] Hs. apply scan_step_inv in Hs as [B' L'].
      split; [congruence | etrans; eassumption]. }
  2:{ split; reflexivity. }
  destruct H1 as [B1 L1]. simpl in B1, L1.
  unfold decay_obstacles in H2.
  apply bind_Ok_inv in H2 as (c & Hc%int_checked_inv & H2). subst c.
  assert (C1 : clear_obstacles_count_ p1 = clear_obstacles_count_ p)
    by (rewrite <- C0; exact (f_equal (fun t => snd (fst t)) B1)).
  rewrite C1 in H2. cbv zeta in H2.
  assert (G : beside_grid p2
              = (frame p0,
                 (if 50 <? clear_obstacles_count_ p + 1 then 0
                  else clear_obstacles_count_ p + 1),
                 map_pub_ p)
              /\ ros_log p2 = ros_log p1).
  { pose proof (f_equal (fun t => fst (fst t)) B1) as F1.
    pose proof (f_equal snd B1) as M1. cbv beta in F1, M1.
    change (frame p1 = frame p0) in F1.
    change (map_pub_ p1 = map_pub_ p0) in M1.
    destruct (50 <? clear_obstacles_count_ p + 1).
    - apply bind_Ok_inv in H2 as (p3 & H3 & [= <-]).
      apply (for_each_invariant
               (fun q => beside_grid q
                         = beside_grid
                             (Upd.clear_obstacles_count
                                (clear_obstacles_count_ p + 1) p1)
                         /\ ros_log q = ros_log p1)) in H3.
      + destruct H3 as [B3 L3]. split; [|exact L3].
        pose proof (f_equal (fun t => fst (fst t)) B3) as F3.
        pose proof (f_equal snd B3) as M3. cbv beta in F3, M3.
        change (frame p3 = frame p1) in F3.
        change (map_pub_ p3 = map_pub_ p1) in M3.
        change (beside_grid (Upd.clear_obstacles_count 0 (Upd.new_obstacles [] p3)))
          with (frame p3, 0, map_pub_ p3).
        rewrite F3, F1, M3, M1, M0. reflexivity.
      + intros a q1 q2 _ [B L] Hm. apply clear_obstacle_inv in Hm as [B' L'].
        split; congruence.
      + split; reflexivity.
    - injection H2 as <-. split; [|reflexivity].
      change (beside_grid (Upd.clear_obstacles_count (clear_obstacles_count_ p + 1) p1))
        with (frame p1, clear_obstacles_count_ p + 1, map_pub_ p1).
      rewrite F1, M1, M0. reflexivity. }
  destruct G as [B2 L2].
  pose proof (f_equal (fun t => fst (fst t)) B2) as F2.
  pose proof (f_equal (fun t => snd (fst t)) B2) as C2.
  pose proof (f_equal snd B2) as M2. cbv beta in F2, C2, M2.
  change (frame p2 = frame p0) in F2.
  change (clear_obstacles_count_ p2
          = (if 50 <? clear_obstacles_count_ p + 1 then 0
             else clear_obstacles_count_ p + 1)) in C2.
  change (map_pub_ p2 = map_pub_ p) in M2.
  split; [exact F2|]. split; [exact C2|]. split.
  - simpl. rewrite M2. reflexivity.
  - simpl. rewrite L2. apply prefix_app_r. exact L1.
Qed.

(** From a counter in [0, 50], as from the 0 of a fresh planner, no run of
    updates takes the counter out of [0, 50]. *)
Lemma run_updates_counter (inputs : list (lookup_answer * LaserScan))
    (p p' : Planner) :
  0 <= clear_obstacles_count_ p <= 50 ->
  run_updates cos sin getYaw get_data inflation_r_ inputs p = Ok p' ->
  0 <= clear_obstacles_count_ p' <= 50.
Proof.
  intros Hc Hrun. unfold run_updates in Hrun.
  apply (for_each_invariant
           (fun q => 0 <= clear_obstacles_count_ q <= 50)) in Hrun;
    [exact Hrun | | exact Hc].
  intros [lookup scan] q1 q2 _ H1 Hstep.
  apply updateStaticMap_inv in Hstep as (_ & C & _). rewrite C.
  destruct (50 <? clear_obstacles_count_ q1 + 1) eqn:E; [lia|].
  apply Z.ltb_ge in E. lia.
Qed.

End UpdateInversion.

(** ** C5: an update whose transform lookup fails *)

Lemma tf_laser_to_map_same (q : Planner) :
  Upd.tf_laser_to_map (tf_laser_to_map_ q) q = q.
Proof. destruct q; reflexivity. Qed.

(** C5, as the code has it.  When the lookup throws, the handler of lines
    290-294 logs the failure and the function goes on: the previous
    transform is retained and the cycle is carried out with it, exactly as
    after a successful lookup that answered the retained transform.  So the
    counter advances (or is reset past 50) and the grid is published; the
    cells of the scan's hits are marked as in any other cycle. *)
Theorem updateStaticMap_lookup_failure
    (cos sin : float -> float) (getYaw : Quaternion -> float)
    (get_data : list (list Waypoint)) (inflation_r_ : Z)
    (scan : LaserScan) (p p' : Planner) :
  updateStaticMap cos sin getYaw get_data inflation_r_ None scan p = Ok p' ->
  tf_laser_to_map_ p' = tf_laser_to_map_ p
  /\ (ros_log p ++ [ROS_ERROR_what]) `prefix_of` ros_log p'
  /\ updateStaticMap cos sin getYaw get_data inflation_r_
       (Some (tf_laser_to_map_ p)) scan (Upd.log ROS_ERROR_what p) = Ok p'
  /\ clear_obstacles_count_ p'
     = (if 50 <? clear_obstacles_count_ p + 1 then 0
        else clear_obstacles_count_ p + 1)
  /\ map_pub_ p' = map_pub_ p ++ [input_map_ p'].
Proof.
  intros H.
  destruct (updateStaticMap_inv _ _ _ _ _ _ _ _ _ H) as (F & C & M & L).
  split; [exact (f_equal snd F)|]. split; [exact L|]. split; [|auto].
  rewrite <- H.
  assert (E : lookup_laser_to_map (Some (tf_laser_to_map_ p))
                (Upd.log ROS_ERROR_what p)
              = lookup_laser_to_map None p)
    by exact (tf_laser_to_map_same (Upd.log ROS_ERROR_what p)).
  unfold updateStaticMap. rewrite E. reflexivity.
Qed.

(** The laser at (1, 1), a hit 1 m ahead, the lookup failing: the update
    returns and the theorem applies to what it returns. *)
Lemma updateStaticMap_lookup_failure_witness :
  exists p',
    updateStaticMap Known.cos Known.sin Known.getYaw [] 1 None
      (Sample.scan_ahead 1) (Sample.planner 0 Sample.tf_at_1_1) = Ok p'
    /\ tf_laser_to_map_ p' = Sample.tf_at_1_1
    /\ [ROS_ERROR_what] `prefix_of` ros_log p'
    /\ updateStaticMap Known.cos Known.sin Known.getYaw [] 1
         (Some Sample.tf_at_1_1) (Sample.scan_ahead 1)
         (Upd.log ROS_ERROR_what (Sample.planner 0 Sample.tf_at_1_1)) = Ok p'
    /\ clear_obstacles_count_ p' = 1
    /\ map_pub_ p' = [input_map_ p'].
Proof.
  eexists. split; [vm_compute; reflexivity|].
  apply (updateStaticMap_lookup_failure Known.cos Known.sin Known.getYaw [] 1
           (Sample.scan_ahead 1) (Sample.planner 0 Sample.tf_at_1_1)).
  vm_compute; reflexivity.
Defined.

(** C5 as stated fails.  The laser at (1, 1), a hit 1 m ahead, the lookup
    failing: the cycle is not skipped.  The four cells around the hit are
    marked with the stale transform, the counter goes from 0 to 1 and the
    grid, with the new marks, is published. *)
Lemma updateStaticMap_failure_not_skipped :
  exists p',
    updateStaticMap Known.cos Known.sin Known.getYaw [] 1 None
      (Sample.scan_ahead 1) (Sample.planner 0 Sample.tf_at_1_1) = Ok p'
    /\ new_obstacles_ p' = [1; 5; 2; 6]
    /\ cell (input_map_ p') 1 = Some OCCUPIED
    /\ clear_obstacles_count_ p' = 1
    /\ map_pub_ p' = [input_map_ p'].
Proof.
  eexists. split; [vm_compute; reflexivity|]. repeat split.
Qed.

(** ** One update, and runs of updates, on a cell *)

Lemma forallb_in_grid (n : Z) (l : list Z) :
  forallb (in_grid n) l = true <-> Forall (fun k => in_grid n k = true) l.
Proof.
  induction l as [|a l IH]; simpl.
  - split; [constructor | reflexivity].
  - rewrite andb_true_iff, IH, Forall_cons. reflexivity.
Qed.

Lemma not_existsb_eqb (c : Z) (l : list Z) :
  negb (existsb (Z.eqb c) l) = true <-> c ∉ l.
Proof.
  rewrite negb_true_iff. induction l as [|a l IH]; simpl.
  - split; [intros _ H; inversion H | reflexivity].
  - rewrite orb_false_iff, IH, not_elem_of_cons, Z.eqb_neq. reflexivity.
Qed.

Lemma in_grid_nonneg (n : Z) (l : list Z) :
  Forall (fun k => in_grid n k = true) l -> Forall (fun k => 0 <= k) l.
Proof.
  intros H. eapply Forall_impl; [exact H|].
  intros k Hk%in_grid_true. lia.
Qed.

Section UpdateOnACell.

(** The cell array [d], the pending list and the counter before an update
    whose scan yields [cells]; everything is an index of [d]. *)
Variables (d pend cells : list Z) (count : Z).
Hypothesis cells_ok : Forall (fun k => in_grid (Z.of_nat (length d)) k = true) cells.
Hypothesis pend_ok : Forall (fun k => in_grid (Z.of_nat (length d)) k = true) pend.

Let d' : list Z := fst (fst (update_cells cells (d, pend) count)).
Let pend' : list Z := snd (fst (update_cells cells (d, pend) count)).
Let count' : Z := snd (update_cells cells (d, pend) count).

Lemma update_cells_length : length d' = length d.
Proof.
  subst d'. unfold update_cells.
  pose proof (mark_cells_length cells (d, pend)) as L.
  destruct (mark_cells cells (d, pend)) as [d1 p1]. simpl in L.
  destruct (50 <? count + 1); simpl; [rewrite clear_cells_length|]; exact L.
Qed.

Lemma update_cells_pending_ok :
  Forall (fun k => in_grid (Z.of_nat (length d')) k = true) pend'.
Proof.
  rewrite update_cells_length. subst pend'. unfold update_cells.
  pose proof (mark_cells_pending_in_grid _ cells (d, pend) pend_ok cells_ok) as P.
  destruct (mark_cells cells (d, pend)) as [d1 p1]. simpl in P.
  destruct (50 <? count + 1); simpl; [constructor | exact P].
Qed.

Lemma update_cells_count :
  count' = if 50 <? count + 1 then 0 else count + 1.
Proof.
  subst count'. unfold update_cells.
  destruct (mark_cells cells (d, pend)) as [d1 p1].
  destruct (50 <? count + 1); reflexivity.
Qed.

(** Past the threshold the pending list is emptied and every cell that was
    pending, or that this very update marked, is FREE. *)
Lemma update_cells_decay (k : Z) :
  50 < count + 1 ->
  pend' = []
  /\ (k ∈ pend \/ (k ∈ cells /\ d !! Z.to_nat k <> Some 100) ->
      d' !! Z.to_nat k = Some 0).
Proof.
  intros Hc%Z.ltb_lt. subst d' pend'. unfold update_cells.
  pose proof (mark_cells_length cells (d, pend)) as L.
  pose proof (mark_cells_pending cells (d, pend)) as (new & P & _).
  pose proof (mark_cells_adds cells (d, pend) k (in_grid_nonneg _ _ cells_ok)) as A.
  destruct (mark_cells cells (d, pend)) as [d1 p1]. simpl in *. rewrite Hc. simpl.
  split; [reflexivity|]. intros H.
  assert (Hk : 0 <= k < Z.of_nat (length d)).
  { destruct H as [H|[H _]]; apply in_grid_true.
    - rewrite Forall_forall in pend_ok. auto.
    - rewrite Forall_forall in cells_ok. auto. }
  apply clear_cells_pending; [|rewrite L; exact Hk].
  destruct H as [H|[H1 H2]].
  - rewrite P. apply elem_of_app. left. exact H.
  - apply A; assumption.
Qed.

(** Below the threshold every cell of the scan is OCCUPIED and no pending
    cell leaves the list. *)
Lemma update_cells_no_decay (k : Z) :
  count + 1 <= 50 ->
  (k ∈ cells -> d' !! Z.to_nat k = Some 100)
  /\ (k ∈ pend -> k ∈ pend')
  /\ (k ∈ cells -> d !! Z.to_nat k <> Some 100 -> k ∈ pend').
Proof.
  intros Hc. assert (E : (50 <? count + 1) = false) by (apply Z.ltb_ge; lia).
  subst d' pend'. unfold update_cells.
  pose proof (mark_cells_pending cells (d, pend)) as (new & P & _).
  pose proof (mark_cells_adds cells (d, pend) k (in_grid_nonneg _ _ cells_ok)) as A.
  pose proof (mark_cells_hit cells (d, pend) k) as Hh.
  destruct (mark_cells cells (d, pend)) as [d1 p1]. simpl in *. rewrite E. simpl.
  assert (Hk : k ∈ cells -> 0 <= k < Z.of_nat (length d)).
  { intros H. apply in_grid_true. rewrite Forall_forall in cells_ok. auto. }
  split; [|split].
  - intros H. apply Hh; auto.
  - intros H. rewrite P. apply elem_of_app. left. exact H.
  - intros H1 H2. apply A; auto.
Qed.

(** A cell the scan does not hit: FREE stays FREE. *)
Lemma update_cells_free (k : Z) :
  0 <= k -> k ∉ cells -> d !! Z.to_nat k = Some 0 -> d' !! Z.to_nat k = Some 0.
Proof.
  intros Hk Hnot H0. subst d'. unfold update_cells.
  pose proof (mark_cells_other cells (d, pend) k Hk (in_grid_nonneg _ _ cells_ok) Hnot) as O.
  destruct (mark_cells cells (d, pend)) as [d1 p1]. simpl in *.
  destruct (50 <? count + 1); simpl.
  - apply clear_cells_keeps_free. congruence.
  - congruence.
Qed.

End UpdateOnACell.

Section Decay.

Variables cos sin : float -> float.
Variable getYaw : Quaternion -> float.
Variable get_data : list (list Waypoint).
Variable inflation_r_ : Z.

Let size (p : Planner) : Z := Z.of_nat (length (data (input_map_ p))).

(** One update whose scan yields cells of the array, in the terms of
    [update_cells]. *)
Lemma update_step (lookup : lookup_answer) (scan : LaserScan) (p : Planner)
    (cells : list Z) :
  pending_ok p ->
  INT_MIN <= clear_obstacles_count_ p + 1 <= INT_MAX ->
  scan_cells cos sin getYaw inflation_r_
    (tf_in_force lookup (tf_laser_to_map_ p)) (info (input_map_ p)) scan
    = Ok cells ->
  forallb (in_grid (size p)) cells = true ->
  exists p',
    updateStaticMap cos sin getYaw get_data inflation_r_ lookup scan p = Ok p'
    /\ data (input_map_ p')
       = fst (fst (update_cells cells (grid_state p) (clear_obstacles_count_ p)))
    /\ new_obstacles_ p'
       = snd (fst (update_cells cells (grid_state p) (clear_obstacles_count_ p)))
    /\ clear_obstacles_count_ p'
       = (if 50 <? clear_obstacles_count_ p + 1 then 0
          else clear_obstacles_count_ p + 1)
    /\ published p' = Some (input_map_ p')
    /\ info (input_map_ p') = info (input_map_ p)
    /\ tf_laser_to_map_ p' = tf_in_force lookup (tf_laser_to_map_ p)
    /\ pending_ok p'
    /\ size p' = size p.
Proof.
  intros Hok Hc Hcells Hall%forallb_in_grid.
  destruct (updateStaticMap_Ok cos sin getYaw get_data inflation_r_
              lookup scan p cells Hcells Hall Hok Hc) as (p' & E & G & M & F).
  pose proof (f_equal (fun t => fst (fst t)) G) as Gd.
  pose proof (f_equal (fun t => snd (fst t)) G) as Gp.
  pose proof (f_equal snd G) as Gc. cbv beta in Gd, Gp, Gc.
  change (data (input_map_ p') = fst (fst (update_cells cells (grid_state p)
                                             (clear_obstacles_count_ p)))) in Gd.
  change (new_obstacles_ p' = snd (fst (update_cells cells (grid_state p)
                                          (clear_obstacles_count_ p)))) in Gp.
  change (clear_obstacles_count_ p' = snd (update_cells cells (grid_state p)
                                             (clear_obstacles_count_ p))) in Gc.
  exists p'. split; [exact E|]. split; [exact Gd|]. split; [exact Gp|].
  split; [rewrite Gc; apply update_cells_count|].
  split; [unfold published; rewrite M; apply last_snoc|].
  assert (F0 : frame (lookup_laser_to_map lookup p)
               = (steering_options_ p, start_idx_ p, end_idx_ p,
                  angle_increment_ p, truncate_ p, info (input_map_ p),
                  tf_map_to_laser_ p, tf_in_force lookup (tf_laser_to_map_ p)))
    by (destruct lookup; reflexivity).
  rewrite F0 in F.
  split; [exact (f_equal (fun t => snd (fst (fst t))) F)|].
  split; [exact (f_equal snd F)|].
  split.
  - unfold pending_ok. rewrite Gd, Gp.
    apply update_cells_pending_ok; assumption.
  - unfold size. rewrite Gd. f_equal.
    apply update_cells_length.
Qed.

(** Updates that never hit the cell [c]: once FREE it stays FREE, and until
    a decay has freed it the counter has advanced once per update. *)
Lemma quiet_run (c : Z) (inputs : list (lookup_answer * LaserScan)) :
  forall p : Planner,
    pending_ok p -> 0 <= c < size p ->
    0 <= clear_obstacles_count_ p <= 50 ->
    cells_in_grid cos sin getYaw inflation_r_ (info (input_map_ p)) (size p)
      (tf_laser_to_map_ p) inputs = true ->
    never_hit cos sin getYaw inflation_r_ c (info (input_map_ p))
      (tf_laser_to_map_ p) inputs = true ->
    c ∈ new_obstacles_ p \/ cell (input_map_ p) c = Some FREE ->
    exists p',
      run_updates cos sin getYaw get_data inflation_r_ inputs p = Ok p'
      /\ (cell (input_map_ p) c = Some FREE -> cell (input_map_ p') c = Some FREE)
      /\ (cell (input_map_ p') c = Some FREE
          \/ clear_obstacles_count_ p'
             = clear_obstacles_count_ p + Z.of_nat (length inputs))
      /\ 0 <= clear_obstacles_count_ p' <= 50.
Proof.
  induction inputs as [|[lookup scan] rest IH]; intros p Hok Hc Hcount Hgrid Hquiet HP.
  - exists p. simpl. split; [reflexivity|]. split; [auto|]. split; [right; lia | lia].
  - cbn [cells_in_grid never_hit] in Hgrid, Hquiet.
    destruct (scan_cells cos sin getYaw inflation_r_
                (tf_in_force lookup (tf_laser_to_map_ p)) (info (input_map_ p)) scan)
      as [cells|] eqn:Hcells; [|discriminate].
    apply andb_true_iff in Hgrid as [Hall Hgrid].
    apply andb_true_iff in Hquiet as [Hnot%not_existsb_eqb Hquiet].
    assert (Hb : INT_MIN <= clear_obstacles_count_ p + 1 <= INT_MAX)
      by (unfold INT_MIN, INT_MAX; lia).
    destruct (update_step lookup scan p cells Hok Hb Hcells Hall) as
      (p1 & E1 & D1 & P1 & C1 & _ & I1 & T1 & Hok1 & S1).
    pose proof Hall as Hall'. apply forallb_in_grid in Hall'.
    assert (Hfree : cell (input_map_ p) c = Some FREE -> cell (input_map_ p1) c = Some FREE).
    { unfold cell, FREE. rewrite D1. intros H0.
      apply (update_cells_free _ _ _ _ Hall'); [lia | exact Hnot | exact H0]. }
    assert (HP1 : c ∈ new_obstacles_ p1 \/ cell (input_map_ p1) c = Some FREE).
    { destruct HP as [Hp|H0]; [|right; auto].
      destruct (Z_lt_le_dec 50 (clear_obstacles_count_ p + 1)) as [Hd|Hd].
      - right. unfold cell, FREE. rewrite D1.
        apply (proj2 (update_cells_decay _ _ _ _ Hall' Hok c Hd)).
        left. exact Hp.
      - left. rewrite P1.
        apply (proj1 (proj2 (update_cells_no_decay _ _ _ _ Hall' c Hd))).
        exact Hp. }
    destruct (IH p1) as (p' & E' & F' & Q' & R'); try assumption.
    + rewrite S1. exact Hc.
    + rewrite C1. destruct (50 <? clear_obstacles_count_ p + 1) eqn:Ed; [lia|].
      apply Z.ltb_ge in Ed. lia.
    + rewrite I1, S1, T1. exact Hgrid.
    + rewrite I1, T1. exact Hquiet.
    + exists p'. unfold run_updates in *. cbn [for_each]. rewrite E1, bind_Ok.
      split; [exact E'|]. split; [auto|]. split; [|exact R'].
      destruct Q' as [Q'|Q']; [left; exact Q'|].
      destruct (50 <? clear_obstacles_count_ p + 1) eqn:Ed.
      * left. apply F'. destruct HP as [Hp|H0]; [|auto].
        apply Z.ltb_lt in Ed. unfold cell, FREE. rewrite D1.
        apply (proj2 (update_cells_decay _ _ _ _ Hall' Hok c Ed)).
        left. exact Hp.
      * right. rewrite Q', C1. cbn [length]. lia.
Qed.

End Decay.

(** ** C8: pending cells and the decay *)

(** What the code does from a counter that is not negative, which nothing
    in the code establishes for the first update.  (1) A cell that an
    update marks, so that it joins the pending list (or is freed at once,
    when that update is itself a decay boundary), is FREE again after the
    next 50 updates if none of their scans hits it.  (2) At a decay
    boundary, an update entered with the counter at 50 or more, every cell
    of the pending list is reset to FREE, the list is emptied and the
    counter is 0.  Every scan is assumed to yield cells of the array only,
    and the updates are shown to return. *)
Lemma pending_cells_return_to_FREE
    (cos sin : float -> float) (getYaw : Quaternion -> float)
    (get_data : list (list Waypoint)) (inflation_r_ : Z) :
  (forall (p : Planner) (lookup0 : lookup_answer) (scan0 : LaserScan)
          (cells0 : list Z) (c : Z) (quiet : list (lookup_answer * LaserScan)),
      let m := info (input_map_ p) in
      let size := Z.of_nat (length (data (input_map_ p))) in
      let tf := tf_in_force lookup0 (tf_laser_to_map_ p) in
      pending_ok p ->
      0 <= clear_obstacles_count_ p < INT_MAX ->
      scan_cells cos sin getYaw inflation_r_ tf m scan0 = Ok cells0 ->
      forallb (in_grid size) cells0 = true ->
      c ∈ cells0 ->
      cell (input_map_ p) c <> Some OCCUPIED ->
      length quiet = 50%nat ->
      cells_in_grid cos sin getYaw inflation_r_ m size tf quiet = true ->
      never_hit cos sin getYaw inflation_r_ c m tf quiet = true ->
      exists p1 p2,
        updateStaticMap cos sin getYaw get_data inflation_r_ lookup0 scan0 p
          = Ok p1
        /\ (c ∈ new_obstacles_ p1 \/ 50 < clear_obstacles_count_ p + 1)
        /\ run_updates cos sin getYaw get_data inflation_r_ quiet p1 = Ok p2
        /\ cell (input_map_ p2) c = Some FREE)
  /\
  (forall (p : Planner) (lookup : lookup_answer) (scan : LaserScan)
          (cells : list Z),
      pending_ok p ->
      50 <= clear_obstacles_count_ p < INT_MAX ->
      scan_cells cos sin getYaw inflation_r_
        (tf_in_force lookup (tf_laser_to_map_ p)) (info (input_map_ p)) scan
        = Ok cells ->
      forallb (in_grid (Z.of_nat (length (data (input_map_ p))))) cells = true ->
      exists p',
        updateStaticMap cos sin getYaw get_data inflation_r_ lookup scan p
          = Ok p'
        /\ (forall k, k ∈ new_obstacles_ p ->
                      cell (input_map_ p') k = Some FREE)
        /\ new_obstacles_ p' = []
        /\ clear_obstacles_count_ p' = 0).
Proof.
  split.
  - intros p lookup0 scan0 cells0 c quiet m size tf
           Hok Hcount Hcells Hall Hin Hfree Hlen Hgrid Hquiet.
    subst m size tf.
    assert (Hb : INT_MIN <= clear_obstacles_count_ p + 1 <= INT_MAX)
      by (unfold INT_MIN, INT_MAX in *; lia).
    destruct (update_step cos sin getYaw get_data inflation_r_
                lookup0 scan0 p cells0 Hok Hb Hcells Hall)
      as (p1 & E1 & D1 & P1 & C1 & _ & I1 & T1 & Hok1 & S1).
    pose proof Hall as Hall'. apply forallb_in_grid in Hall'.
    assert (Hc : 0 <= c < Z.of_nat (length (data (input_map_ p)))).
    { apply in_grid_true. rewrite Forall_forall in Hall'. auto. }
    assert (Hadd : c ∈ new_obstacles_ p1 \/ 50 < clear_obstacles_count_ p + 1).
    { destruct (Z_lt_le_dec 50 (clear_obstacles_count_ p + 1)) as [Hd|Hd];
        [right; exact Hd | left].
      rewrite P1.
      apply (proj2 (proj2 (update_cells_no_decay _ _ _ _ Hall' c Hd)));
        assumption. }
    assert (Hdecay : 50 < clear_obstacles_count_ p + 1 ->
                     cell (input_map_ p1) c = Some FREE).
    { intros Hd. unfold cell, FREE. rewrite D1.
      apply (proj2 (update_cells_decay _ _ _ _ Hall' Hok c Hd)).
      right. split; assumption. }
    destruct (quiet_run cos sin getYaw get_data inflation_r_ c quiet p1)
      as (p2 & E2 & F2 & Q2 & R2).
    + exact Hok1.
    + cbv beta in S1. rewrite S1. exact Hc.
    + rewrite C1. destruct (50 <? clear_obstacles_count_ p + 1) eqn:Ed; [lia|].
      apply Z.ltb_ge in Ed. lia.
    + cbv beta in S1. rewrite I1, S1, T1. exact Hgrid.
    + rewrite I1, T1. exact Hquiet.
    + destruct Hadd as [Ha|Hd]; [left; exact Ha | right; auto].
    + exists p1, p2. split; [exact E1|]. split; [exact Hadd|]. split; [exact E2|].
      destruct Q2 as [Q2|Q2]; [exact Q2|].
      apply F2, Hdecay. rewrite Hlen, C1 in Q2.
      destruct (50 <? clear_obstacles_count_ p + 1) eqn:Ed.
      * apply Z.ltb_lt in Ed. exact Ed.
      * lia.
  - intros p lookup scan cells Hok Hcount Hcells Hall.
    assert (Hb : INT_MIN <= clear_obstacles_count_ p + 1 <= INT_MAX)
      by (unfold INT_MIN, INT_MAX in *; lia).
    destruct (update_step cos sin getYaw get_data inflation_r_
                lookup scan p cells Hok Hb Hcells Hall)
      as (p1 & E1 & D1 & P1 & C1 & _).
    pose proof Hall as Hall'. apply forallb_in_grid in Hall'.
    assert (Hd : 50 < clear_obstacles_count_ p + 1) by lia.
    exists p1. split; [exact E1|]. split; [|split].
    + intros k Hk. unfold cell, FREE. rewrite D1.
      apply (proj2 (update_cells_decay _ _ _ _ Hall' Hok k Hd)). left. exact Hk.
    + rewrite P1. apply (proj1 (update_cells_decay _ _ _ _ Hall' Hok 0 Hd)).
    + rewrite C1. apply Z.ltb_lt in Hd. rewrite Hd. reflexivity.
Qed.

(** The laser at (1, 1) and a hit 1 m ahead mark cell 5 (among 1, 5, 2, 6);
    then fifty scans with nothing in range. *)
Lemma pending_cells_return_to_FREE_witness :
  exists p1 p2,
    updateStaticMap Known.cos Known.sin Known.getYaw [] 1
      (Some Sample.tf_at_1_1) (Sample.scan_ahead 1)
      (Sample.planner 0 Sample.tf_at_1_1) = Ok p1
    /\ (5 ∈ new_obstacles_ p1 \/ 50 < 0 + 1)
    /\ run_updates Known.cos Known.sin Known.getYaw [] 1
         (repeat (None, Sample.scan_open 6) 50) p1 = Ok p2
    /\ cell (input_map_ p2) 5 = Some FREE.
Proof.
  apply (proj1 (pending_cells_return_to_FREE
                  Known.cos Known.sin Known.getYaw [] 1)
           (Sample.planner 0 Sample.tf_at_1_1) (Some Sample.tf_at_1_1)
           (Sample.scan_ahead 1) [1; 5; 2; 6] 5
           (repeat (None, Sample.scan_open 6) 50)).
  - constructor.
  - vm_compute. split; [discriminate | reflexivity].
  - vm_compute. reflexivity.
  - vm_compute. reflexivity.
  - apply list_elem_of_further, list_elem_of_here.
  - vm_compute. discriminate.
  - vm_compute. reflexivity.
  - vm_compute. reflexivity.
  - vm_compute. reflexivity.
Defined.

Section Undecayed.

Variables cos sin : float -> float.
Variable getYaw : Quaternion -> float.
Variable get_data : list (list Waypoint).
Variable inflation_r_ : Z.

(** Updates that do not take the counter past 50: a cell that is pending
    and OCCUPIED is so after each of them, whether or not a scan hits it. *)
Lemma no_decay_run (c : Z) (inputs : list (lookup_answer * LaserScan)) :
  forall p : Planner,
    pending_ok p ->
    INT_MIN <= clear_obstacles_count_ p + 1 ->
    clear_obstacles_count_ p + Z.of_nat (length inputs) <= 50 ->
    cells_in_grid cos sin getYaw inflation_r_ (info (input_map_ p))
      (Z.of_nat (length (data (input_map_ p)))) (tf_laser_to_map_ p) inputs
      = true ->
    c ∈ new_obstacles_ p -> cell (input_map_ p) c = Some OCCUPIED ->
    exists p',
      run_updates cos sin getYaw get_data inflation_r_ inputs p = Ok p'
      /\ c ∈ new_obstacles_ p'
      /\ cell (input_map_ p') c = Some OCCUPIED
      /\ clear_obstacles_count_ p'
         = clear_obstacles_count_ p + Z.of_nat (length inputs).
Proof.
  induction inputs as [|[lookup scan] rest IH];
    intros p Hok Hlo Hhi Hgrid Hpend Hocc.
  - exists p. split; [reflexivity|]. cbn [length]. repeat split; auto; lia.
  - cbn [cells_in_grid] in Hgrid. cbn [length] in Hhi.
    destruct (scan_cells cos sin getYaw inflation_r_
                (tf_in_force lookup (tf_laser_to_map_ p)) (info (input_map_ p)) scan)
      as [cells|] eqn:Hcells; [|discriminate].
    apply andb_true_iff in Hgrid as [Hall Hgrid].
    assert (Hb : INT_MIN <= clear_obstacles_count_ p + 1 <= INT_MAX)
      by (unfold INT_MIN, INT_MAX in *; lia).
    destruct (update_step cos sin getYaw get_data inflation_r_ lookup scan p
                cells Hok Hb Hcells Hall)
      as (p1 & E1 & D1 & P1 & C1 & _ & I1 & T1 & Hok1 & S1).
    assert (Ec : (50 <? clear_obstacles_count_ p + 1) = false)
      by (apply Z.ltb_ge; lia).
    rewrite Ec in C1.
    assert (H1 : c ∈ new_obstacles_ p1 /\ cell (input_map_ p1) c = Some OCCUPIED).
    { unfold cell, OCCUPIED in *. rewrite D1, P1. unfold update_cells, grid_state.
      pose proof (mark_cells_keeps cells (data (input_map_ p), new_obstacles_ p)
                    (Z.to_nat c) Hocc) as K.
      pose proof (mark_cells_pending cells (data (input_map_ p), new_obstacles_ p))
        as (new & Pn & _).
      destruct (mark_cells cells (data (input_map_ p), new_obstacles_ p)) as [d1 pd1].
      simpl in K, Pn. rewrite Ec. simpl. split; [|exact K].
      rewrite Pn. apply elem_of_app. left. exact Hpend. }
    destruct H1 as [Hpend1 Hocc1].
    destruct (IH p1) as (p' & E' & P' & O' & C'); try assumption.
    + rewrite C1. unfold INT_MIN in *. lia.
    + rewrite C1. lia.
    + rewrite I1, S1, T1. exact Hgrid.
    + exists p'. unfold run_updates in *. cbn [for_each]. rewrite E1, bind_Ok.
      split; [exact E'|]. split; [exact P'|]. split; [exact O'|].
      rewrite C', C1. cbn [length]. lia.
Qed.

(** C8: the code does not do what the claim says.  The counter
    [clear_obstacles_count_] (line 55) is initialised nowhere: the
    constructor of lines 75-86 sets [lookahead_d_] and [truncate_] and
    leaves it out, so the first update counts from whatever the member
    holds.  When that is a negative number, a cell that an update marks is
    put on the pending list and is still OCCUPIED, and still pending, after
    the next 50 updates, none of which need hit it: the decay of lines
    338-347 has not run once, and the counter stands at 51 more than it
    was.  Every scan is assumed to yield cells of the array only, and the
    updates are shown to return. *)
Theorem pending_cell_outlives_threshold
    (p : Planner) (lookup0 : lookup_answer) (scan0 : LaserScan)
    (cells0 : list Z) (c : Z) (quiet : list (lookup_answer * LaserScan)) :
  let m := info (input_map_ p) in
  let size := Z.of_nat (length (data (input_map_ p))) in
  let tf := tf_in_force lookup0 (tf_laser_to_map_ p) in
  pending_ok p ->
  INT_MIN <= clear_obstacles_count_ p < 0 ->
  scan_cells cos sin getYaw inflation_r_ tf m scan0 = Ok cells0 ->
  forallb (in_grid size) cells0 = true ->
  c ∈ cells0 ->
  cell (input_map_ p) c <> Some OCCUPIED ->
  length quiet = 50%nat ->
  cells_in_grid cos sin getYaw inflation_r_ m size tf quiet = true ->
  never_hit cos sin getYaw inflation_r_ c m tf quiet = true ->
  exists p1 p2,
    updateStaticMap cos sin getYaw get_data inflation_r_ lookup0 scan0 p
      = Ok p1
    /\ c ∈ new_obstacles_ p1
    /\ run_updates cos sin getYaw get_data inflation_r_ quiet p1 = Ok p2
    /\ cell (input_map_ p2) c = Some OCCUPIED
    /\ c ∈ new_obstacles_ p2
    /\ clear_obstacles_count_ p2 = clear_obstacles_count_ p + 51.
Proof.
  intros m size tf Hok Hcount Hcells Hall Hin Hfree Hlen Hgrid _.
  subst m size tf.
  assert (Hb : INT_MIN <= clear_obstacles_count_ p + 1 <= INT_MAX)
    by (unfold INT_MIN, INT_MAX in *; lia).
  destruct (update_step cos sin getYaw get_data inflation_r_
              lookup0 scan0 p cells0 Hok Hb Hcells Hall)
    as (p1 & E1 & D1 & P1 & C1 & _ & I1 & T1 & Hok1 & S1).
  pose proof Hall as Hall'. apply forallb_in_grid in Hall'.
  assert (Hc : 0 <= c < Z.of_nat (length (data (input_map_ p)))).
  { apply in_grid_true. rewrite Forall_forall in Hall'. auto. }
  assert (Hd : clear_obstacles_count_ p + 1 <= 50) by lia.
  assert (Ec : (50 <? clear_obstacles_count_ p + 1) = false)
    by (apply Z.ltb_ge; lia).
  rewrite Ec in C1.
  pose proof (update_cells_no_decay (data (input_map_ p)) (new_obstacles_ p)
                cells0 (clear_obstacles_count_ p) Hall' c Hd)
    as (Hhit & _ & Hadd).
  assert (Hpend1 : c ∈ new_obstacles_ p1) by (rewrite P1; auto).
  assert (Hocc1 : cell (input_map_ p1) c = Some OCCUPIED)
    by (unfold cell, OCCUPIED; rewrite D1; auto).
  destruct (no_decay_run c quiet p1) as (p2 & E2 & P2 & O2 & C2);
    try assumption.
  - rewrite C1. unfold INT_MIN in *. lia.
  - rewrite C1, Hlen. lia.
  - rewrite I1, S1, T1. exact Hgrid.
  - exists p1, p2. split; [exact E1|]. split; [exact Hpend1|].
    split; [exact E2|]. split; [exact O2|]. split; [exact P2|].
    rewrite C2, C1, Hlen. lia.
Qed.

End Undecayed.

(** The counter holds -1 when the first scan arrives.  The laser at (1, 1)
    and a hit 1 m ahead mark cell 5 (among 1, 5, 2, 6); then fifty scans
    with nothing in range. *)
Lemma pending_cell_outlives_threshold_witness :
  exists p1 p2,
    updateStaticMap Known.cos Known.sin Known.getYaw [] 1
      (Some Sample.tf_at_1_1) (Sample.scan_ahead 1)
      (Sample.planner (-1) Sample.tf_at_1_1) = Ok p1
    /\ 5 ∈ new_obstacles_ p1
    /\ run_updates Known.cos Known.sin Known.getYaw [] 1
         (repeat (None, Sample.scan_open 6) 50) p1 = Ok p2
    /\ cell (input_map_ p2) 5 = Some OCCUPIED
    /\ 5 ∈ new_obstacles_ p2
    /\ clear_obstacles_count_ p2 = -1 + 51.
Proof.
  apply (pending_cell_outlives_threshold
           Known.cos Known.sin Known.getYaw [] 1
           (Sample.planner (-1) Sample.tf_at_1_1) (Some Sample.tf_at_1_1)
           (Sample.scan_ahead 1) [1; 5; 2; 6] 5
           (repeat (None, Sample.scan_open 6) 50)).
  - constructor.
  - vm_compute. split; [discriminate | reflexivity].
  - vm_compute. reflexivity.
  - vm_compute. reflexivity.
  - apply list_elem_of_further, list_elem_of_here.
  - vm_compute. discriminate.
  - vm_compute. reflexivity.
  - vm_compute. reflexivity.
  - vm_compute. reflexivity.
Defined.

(** ** C10: what is published at a decay boundary *)



(* ------------------------------------------------------------------------- *)
(** ** C2: the gap search *)

Section GapSearch.

Variables gap_size_threshold_ gap_threshold_ : float.

(** A reading is open when it exceeds the gap-distance threshold. *)
Let open (x : float) : bool := (gap_threshold_ <? x)%float.

(** The inner loop stops at the first reading that is not open. *)
Lemma gap_run_prefix (pre : list float) (y : float) (rest : list float)
    (current_size current_idx : Z) :
  Forall (fun x => open x = true) pre -> open y = false ->
  gap_run gap_threshold_ (pre ++ y :: rest) current_size current_idx
  = (current_size + Z.of_nat (length pre), current_idx + Z.of_nat (length pre)).
Proof.
  intros Hpre Hy. revert current_size current_idx.
  induction Hpre as [|x pre Hx _ IH]; intros current_size current_idx.
  - cbn [app gap_run length]. fold (open y). rewrite Hy. f_equal; lia.
  - cbn [app gap_run]. fold (open x). rewrite Hx, IH. cbn [length]. f_equal; lia.
Qed.

Lemma gap_run_all_open (l : list float) (current_size current_idx : Z) :
  Forall (fun x => open x = true) l ->
  gap_run gap_threshold_ l current_size current_idx
  = (current_size + Z.of_nat (length l), current_idx + Z.of_nat (length l)).
Proof.
  intros Hl. revert current_size current_idx.
  induction Hl as [|x l Hx _ IH]; intros current_size current_idx.
  - cbn [gap_run length]. f_equal; lia.
  - cbn [gap_run]. fold (open x). rewrite Hx, IH. cbn [length]. f_equal; lia.
Qed.

Lemma first_not_open (l : list float) (x : float) :
  x ∈ l -> open x = false ->
  exists pre y rest,
    l = pre ++ y :: rest /\ Forall (fun x => open x = true) pre /\ open y = false.
Proof.
  induction l as [|a l IH]; intros Hin Hx; [inversion Hin|].
  destruct (open a) eqn:Ea.
  - apply elem_of_cons in Hin as [->|Hin]; [congruence|].
    destruct (IH Hin Hx) as (pre & y & rest & -> & Hpre & Hy).
    exists (a :: pre), y, rest. split; [reflexivity|]. split; [|exact Hy].
    constructor; assumption.
  - exists [], a, l. split; [reflexivity|]. split; [constructor | exact Ea].
Qed.

(** At a reading that is not open the body of the outer loop leaves
    [current_idx] where it is: nothing in lines 408-424 steps over it. *)
Lemma gap_body_stuck (scan_ranges : list float) (current_idx : Z) (y : float)
    (best_idx : list Z) :
  0 <= current_idx -> scan_ranges !! Z.to_nat current_idx = Some y ->
  open y = false ->
  fst (gap_body gap_size_threshold_ gap_threshold_ scan_ranges current_idx best_idx)
  = current_idx.
Proof.
  intros Hpos Hy Hblocked. unfold gap_body.
  rewrite (drop_S _ _ _ Hy). cbn [gap_run]. fold (open y). rewrite Hblocked.
  destruct (gap_size_threshold_ <? to_double 0)%float; reflexivity.
Qed.

Lemma gap_loop_stuck (scan_ranges : list float) (current_idx : Z) (y : float) :
  0 <= current_idx -> scan_ranges !! Z.to_nat current_idx = Some y ->
  open y = false ->
  forall (fuel : nat) (best_idx : list Z),
    gap_loop gap_size_threshold_ gap_threshold_ fuel scan_ranges current_idx best_idx
    = Fail FuelExhausted.
Proof.
  intros Hpos Hy Hblocked. induction fuel as [|fuel IH]; intros best_idx.
  - reflexivity.
  - cbn [gap_loop].
    assert (Hlt : (current_idx <? Z.of_nat (length scan_ranges)) = true).
    { apply Z.ltb_lt. apply lookup_lt_Some in Hy. lia. }
    rewrite Hlt.
    pose proof (gap_body_stuck scan_ranges current_idx y best_idx Hpos Hy Hblocked) as E.
    destruct (gap_body _ _ scan_ranges current_idx best_idx) as [i' b'].
    simpl in E. subst i'. apply IH.
Qed.

(** C2: the code does not do what the claim says.  If any reading of the
    array is at or below the gap-distance threshold (is not above it), the
    search does not return, whatever fuel it is given: the inner loop of
    lines 413-417 stops at that reading and the outer loop of line 408 has
    no step of its own, so [current_idx] stays on it for ever. *)
Theorem findbestGapIdx_never_returns (scan_ranges : list float) (x : float) :
  x ∈ scan_ranges -> (gap_threshold_ <? x)%float = false ->
  forall fuel : nat,
    findbestGapIdx gap_size_threshold_ gap_threshold_ fuel scan_ranges
    = Fail FuelExhausted.
Proof.
  intros Hin Hx fuel.
  destruct (first_not_open scan_ranges x Hin Hx) as (pre & y & rest & -> & Hpre & Hy).
  unfold findbestGapIdx. destruct fuel as [|fuel]; [reflexivity|].
  cbn [gap_loop].
  assert (Hlt : (0 <? Z.of_nat (length (pre ++ y :: rest))) = true).
  { apply Z.ltb_lt. rewrite length_app. cbn [length]. lia. }
  rewrite Hlt. unfold gap_body. rewrite Z2Nat.inj_0, drop_0.
  rewrite (gap_run_prefix pre y rest 0 0 Hpre Hy).
  assert (Hlook : (pre ++ y :: rest) !! Z.to_nat (0 + Z.of_nat (length pre)) = Some y).
  { replace (Z.to_nat (0 + Z.of_nat (length pre))) with (length pre + 0)%nat by lia.
    rewrite lookup_app_r by lia. replace (length pre + 0 - length pre)%nat with O by lia.
    reflexivity. }
  destruct (gap_size_threshold_ <? to_double (0 + Z.of_nat (length pre)))%float;
    apply (gap_loop_stuck _ _ y); (lia || assumption).
Qed.

(** When every reading is open the search does return: one run, then the
    test of line 408 fails. *)
Lemma findbestGapIdx_all_open (scan_ranges : list float) (fuel : nat) :
  Forall (fun x => open x = true) scan_ranges ->
  exists best_idx,
    findbestGapIdx gap_size_threshold_ gap_threshold_ (S (S fuel)) scan_ranges
    = Ok best_idx.
Proof.
  intros Hall. unfold findbestGapIdx. cbn [gap_loop].
  destruct (0 <? Z.of_nat (length scan_ranges)) eqn:E; [|eauto].
  unfold gap_body. rewrite Z2Nat.inj_0, drop_0.
  rewrite (gap_run_all_open scan_ranges 0 0 Hall).
  assert (Hge : (0 + Z.of_nat (length scan_ranges) <? Z.of_nat (length scan_ranges)) = false)
    by (apply Z.ltb_ge; lia).
  destruct (gap_size_threshold_ <? to_double (0 + Z.of_nat (length scan_ranges)))%float;
    rewrite Hge; eauto.
Qed.

End GapSearch.

(** An all-blocked scan: three readings of 0.5 m under a threshold of 1 m. *)
Lemma findbestGapIdx_never_returns_witness :
  findbestGapIdx 2 1 1000 [0.5; 0.5; 0.5]%float = Fail FuelExhausted.
Proof.
  apply (findbestGapIdx_never_returns 2 1 [0.5; 0.5; 0.5]%float 0.5%float).
  - apply list_elem_of_here.
  - vm_compute. reflexivity.
Defined.

(* ------------------------------------------------------------------------- *)
(** ** C7: the safety bubble *)

Lemma vec_set_at_in_range {A : Type} (v : list A) (i : Z) (a : A) :
  0 <= i < Z.of_nat (length v) -> vec_set_at v i a = Ok (<[Z.to_nat i := a]> v).
Proof.
  intros H. unfold vec_set_at.
  destruct ((0 <=? i) && (i <? Z.of_nat (length v))) eqn:E; [reflexivity|].
  apply andb_false_iff in E as [E%Z.leb_gt | E%Z.ltb_ge]; lia.
Qed.

(** Zeroing the indices [s, e) of an array that has them all. *)
Lemma zero_range_Ok (n : nat) :
  forall (l : list float) (s e : Z),
    Z.to_nat (e - s) = n -> 0 <= s -> e <= Z.of_nat (length l) ->
    exists l',
      for_each (fun i v => vec_set_at v i 0%float) (int_range s e) l = Ok l'
      /\ length l' = length l
      /\ forall k : Z, 0 <= k ->
           l' !! Z.to_nat k
           = if (s <=? k) && (k <? e) then Some 0%float else l !! Z.to_nat k.
Proof.
  induction n as [|n IH]; intros l s e Hn Hs He.
  - rewrite int_range_nil by lia. exists l. split; [reflexivity|].
    split; [reflexivity|]. intros k Hk.
    destruct (s <=? k) eqn:E1; destruct (k <? e) eqn:E2; simpl; try reflexivity.
    apply Z.leb_le in E1. apply Z.ltb_lt in E2. lia.
  - rewrite int_range_cons by lia. cbn [for_each]. cbv beta.
    rewrite vec_set_at_in_range, bind_Ok by lia.
    destruct (IH (<[Z.to_nat s := 0%float]> l) (s + 1) e) as (l' & E & L & K);
      [lia | lia | rewrite length_insert; lia |].
    exists l'. split; [exact E|]. split; [rewrite L; apply length_insert|].
    intros k Hk. rewrite (K k Hk).
    destruct (decide (k = s)) as [->|Hne].
    + assert (E1 : (s + 1 <=? s) = false) by (apply Z.leb_gt; lia).
      assert (E2 : (s <=? s) = true) by (apply Z.leb_le; lia).
      assert (E3 : (s <? e) = true) by (apply Z.ltb_lt; lia).
      rewrite E1, E2, E3. simpl. apply list_lookup_insert_eq. lia.
    + rewrite list_lookup_insert_ne by (intros E'; apply Z2Nat.inj in E'; lia).
      destruct (k <? e); [|rewrite !andb_false_r; reflexivity].
      rewrite !andb_true_r.
      destruct (s + 1 <=? k) eqn:E1; destruct (s <=? k) eqn:E2; try reflexivity.
      * apply Z.leb_le in E1. apply Z.leb_gt in E2. lia.
      * apply Z.leb_gt in E1. apply Z.leb_le in E2. lia.
Qed.

(** What [eliminateBubble] zeroes: with the rounded bounds [s] and [e] of
    lines 385-386, the indices from [s] up to but not including [e], or up
    to but not including the last index when [e] is at or past the size.
    The reading at the upper bound is left as it is. *)
Lemma eliminateBubble_window (bubble_radius_ : float) (p : Planner)
    (scan_ranges : list float) (closest_idx : Z) (closest_dist : float)
    (s e : Z) :
  let half := (bubble_radius_ / closest_dist / angle_increment_ p)%float in
  let size := Z.of_nat (length scan_ranges) in
  let stop := if size <=? e then size - 1 else e in
  double_to_size_t (round (to_double closest_idx - half)%float) = Ok s ->
  double_to_size_t (round (to_double closest_idx + half)%float) = Ok e ->
  0 < size <= SIZE_MAX ->
  exists l',
    eliminateBubble bubble_radius_ p scan_ranges closest_idx closest_dist = Ok l'
    /\ length l' = length scan_ranges
    /\ forall k : Z, 0 <= k ->
         l' !! Z.to_nat k
         = if (s <=? k) && (k <? stop) then Some 0%float
           else scan_ranges !! Z.to_nat k.
Proof.
  intros half size stop Hs He Hsize. unfold eliminateBubble. cbv zeta.
  fold half. rewrite Hs, bind_Ok, He, bind_Ok. fold size.
  assert (Hs0 : 0 <= s).
  { unfold double_to_size_t in Hs. destruct (trunc _) as [z|]; [|discriminate].
    destruct (0 <=? z) eqn:E; simpl in Hs; [|discriminate].
    destruct (z <=? SIZE_MAX); [|discriminate]. injection Hs as <-.
    apply Z.leb_le in E. exact E. }
  assert (E0 : (s <? 0) = false) by (apply Z.ltb_ge; exact Hs0).
  rewrite E0.
  assert (Hstop : (if size <=? e then wrap_size_t (size - 1) else e) = stop).
  { subst stop. destruct (size <=? e); [|reflexivity].
    unfold wrap_size_t. apply Z.mod_small. unfold SIZE_MAX in Hsize. lia. }
  rewrite Hstop.
  apply (zero_range_Ok (Z.to_nat (stop - s))); [reflexivity | exact Hs0 |].
  subst stop. destruct (size <=? e) eqn:E; [lia|]. apply Z.leb_gt in E. lia.
Qed.

(** C7: the code does not do what the claim says.  With a bubble of 0.5 m,
    the closest reading at 1 m and 0.25 rad per index the half-width is 2
    indices.  (1) Closest index 3 of 7: the window is indices 1 to 5, and
    index 5 is not zeroed (line 392 stops before [end]).  (2) Closest index
    6, the last: the bound is cut to [size - 1] and the loop stops before
    it, so the closest reading itself is not zeroed.  (3) Closest index 1:
    the lower bound rounds to -1, which [size_t] cannot hold; line 390
    never fires and nothing is clamped to 0. *)
Theorem eliminateBubble_misses_window_end :
  eliminateBubble 0.5 (Sample.planner_windowed 7) [3; 3; 3; 1; 3; 3; 3]%float 3 1
  = Ok [3; 0; 0; 0; 0; 3; 3]%float
  /\ eliminateBubble 0.5 (Sample.planner_windowed 7) [3; 3; 3; 3; 3; 3; 1]%float 6 1
     = Ok [3; 3; 3; 3; 0; 0; 1]%float
  /\ eliminateBubble 0.5 (Sample.planner_windowed 7) [3; 1; 3; 3; 3; 3; 3]%float 1 1
     = Fail UndefinedBehaviour.
Proof. repeat split; vm_compute; reflexivity. Qed.

(* ------------------------------------------------------------------------- *)
(** ** C9: the steering options of a scan cycle *)

Section ScanCallback.

Variables bubble_radius_ gap_size_threshold_ gap_threshold_ max_scan_ : float.
Variables cos sin : float -> float.
Variable getYaw : Quaternion -> float.
Variable get_data : list (list Waypoint).
Variable inflation_r_ : Z.

Lemma truncate_window_inv (scan_msg : LaserScan) (p p' : Planner) :
  truncate_window scan_msg p = Ok p' ->
  steering_options_ p' = steering_options_ p.
Proof.
  unfold truncate_window. destruct (truncate_ p); [congruence|].
  intros H. apply bind_Ok_inv in H as (n & _ & [= <-]). reflexivity.
Qed.

(** [scanCallback] is the update of the map, the fixing of the window and
    the stages of lines 207-239 run on the planner these leave. *)
Lemma scanCallback_stages (fuel : nat) (lookup : lookup_answer)
    (scan_msg : LaserScan) (p : Planner) :
  scanCallback bubble_radius_ gap_size_threshold_ gap_threshold_ max_scan_
    cos sin getYaw get_data inflation_r_ fuel lookup scan_msg p
  = updateStaticMap cos sin getYaw get_data inflation_r_ lookup scan_msg p
      ≫= fun p1 =>
    truncate_window scan_msg p1 ≫= fun p2 =>
    cycle_headings bubble_radius_ gap_size_threshold_ gap_threshold_ max_scan_
      fuel scan_msg p2 ≫= fun headings =>
    Ok (Upd.steering_options (steering_options_ p2 ++ headings)
          (Upd.log (ROS_DEBUG "Eliminated safety bubble!")
             (Upd.log (ROS_DEBUG "Filtered scan ranges of nans and infs")
                (Upd.log (ROS_DEBUG "Got truncated start and end indices!")
                   p2)))).
Proof.
  unfold scanCallback.
  destruct (updateStaticMap _ _ _ _ _ _ _ _) as [p1|f]; [|reflexivity].
  rewrite !bind_Ok.
  destruct (truncate_window scan_msg p1) as [p2|f]; [|reflexivity].
  rewrite !bind_Ok. cbv zeta.
  unfold cycle_headings, bubbled_window, filtered_window.
  change (start_idx_ (Upd.log _ p2)) with (start_idx_ p2).
  change (end_idx_ (Upd.log _ p2)) with (end_idx_ p2).
  destruct (for_each _ (int_range (start_idx_ p2) (end_idx_ p2)) [])
    as [filtered0|f]; [|reflexivity].
  rewrite !bind_Ok. cbv zeta.
  destruct (vec_get filtered0 (closestPoint filtered0)) as [dist|f];
    [|reflexivity].
  rewrite !bind_Ok.
  change (eliminateBubble bubble_radius_ (Upd.log _ (Upd.log _ p2)))
    with (eliminateBubble bubble_radius_ p2).
  destruct (eliminateBubble bubble_radius_ p2 filtered0 _ dist)
    as [filtered|f]; [|reflexivity].
  rewrite !bind_Ok.
  destruct (findbestGapIdx _ _ fuel filtered) as [best_idx|f]; [|reflexivity].
  rewrite !bind_Ok. reflexivity.
Qed.

Lemma scanCallback_keeps_options (lookup : lookup_answer)
    (scan_msg : LaserScan) (p p1 p2 : Planner) :
  updateStaticMap cos sin getYaw get_data inflation_r_ lookup scan_msg p = Ok p1 ->
  truncate_window scan_msg p1 = Ok p2 ->
  steering_options_ p2 = steering_options_ p.
Proof.
  intros H1 H2. apply updateStaticMap_inv in H1 as (F1 & _).
  apply truncate_window_inv in H2. rewrite H2.
  transitivity (steering_options_ (lookup_laser_to_map lookup p)).
  - exact (f_equal (fun t => fst (fst (fst (fst (fst (fst (fst t))))))) F1).
  - destruct lookup; reflexivity.
Qed.

(** C9, as the code has it.  [steering_options_] is a member of the class
    (line 36) and line 238 is a [push_back].  A callback that returns has
    updated the map, fixed the window (on the first scan) and computed the
    headings of this cycle, [cycle_headings]: the readings of the scan in
    the window, filtered (lines 207-222), the safety bubble around the
    closest of them zeroed (lines 226-230), the gap search run on the
    result and each gap index turned into an angle (lines 234-239).  The
    member it leaves is the member it found, every entry in order, followed
    by exactly these headings. *)
Theorem scanCallback_appends (fuel : nat) (lookup : lookup_answer)
    (scan_msg : LaserScan) (p p' : Planner) :
  scanCallback bubble_radius_ gap_size_threshold_ gap_threshold_ max_scan_
    cos sin getYaw get_data inflation_r_ fuel lookup scan_msg p = Ok p' ->
  exists (p1 p2 : Planner) (headings : list float),
    updateStaticMap cos sin getYaw get_data inflation_r_ lookup scan_msg p
      = Ok p1
    /\ truncate_window scan_msg p1 = Ok p2
    /\ cycle_headings bubble_radius_ gap_size_threshold_ gap_threshold_
         max_scan_ fuel scan_msg p2 = Ok headings
    /\ steering_options_ p' = steering_options_ p ++ headings.
Proof.
  rewrite scanCallback_stages. intros H.
  apply bind_Ok_inv in H as (p1 & H1 & H).
  apply bind_Ok_inv in H as (p2 & H2 & H).
  apply bind_Ok_inv in H as (headings & Hh & [= <-]).
  exists p1, p2, headings. split; [exact H1|]. split; [exact H2|].
  split; [exact Hh|].
  cbn [steering_options_ Upd.steering_options].
  rewrite (scanCallback_keeps_options lookup scan_msg p p1 p2 H1 H2).
  reflexivity.
Qed.

End ScanCallback.

(** A first scan of seven readings with nothing in range, on a planner
    that has seen none: one gap, one heading. *)
Lemma scanCallback_appends_witness :
  exists p',
    scanCallback 0.125 2 1 10 Known.cos Known.sin Known.getYaw [] 1 10 None
      (Sample.scan_open 7) (Sample.planner 0 Sample.tf_at_1_1) = Ok p'
    /\ exists (p1 p2 : Planner) (headings : list float),
         updateStaticMap Known.cos Known.sin Known.getYaw [] 1 None
           (Sample.scan_open 7) (Sample.planner 0 Sample.tf_at_1_1) = Ok p1
         /\ truncate_window (Sample.scan_open 7) p1 = Ok p2
         /\ cycle_headings 0.125 2 1 10 10 (Sample.scan_open 7) p2
            = Ok headings
         /\ steering_options_ p'
            = steering_options_ (Sample.planner 0 Sample.tf_at_1_1)
              ++ headings.
Proof.
  eexists. split; [vm_compute; reflexivity|].
  apply (scanCallback_appends 0.125 2 1 10 Known.cos Known.sin Known.getYaw
           [] 1 10 None (Sample.scan_open 7)
           (Sample.planner 0 Sample.tf_at_1_1)).
  vm_compute; reflexivity.
Defined.

(** C9 as stated fails.  Two scan callbacks in a row receive the same scan
    (seven readings, nothing in range; bubble 0.125 m, gaps of more than 2
    readings above 1 m, readings capped at 10 m).  Each finds the one gap
    and its one heading.  After the first the member holds that heading;
    after the second it holds two entries, the first of them the first
    cycle's: what a cycle leaves is not derived from its scan alone.  (The
    heading itself is 0.25 rad times the [size_t] difference 2 - 3, that is
    2^64 - 1 rounded to a double: 2^62.) *)
Lemma scanCallback_accumulates :
  exists p1 p2,
    scanCallback 0.125 2 1 10 Known.cos Known.sin Known.getYaw [] 1 10 None
      (Sample.scan_open 7) (Sample.planner 0 Sample.tf_at_1_1) = Ok p1
    /\ steering_options_ p1 = [0x1p+62%float]
    /\ scanCallback 0.125 2 1 10 Known.cos Known.sin Known.getYaw [] 1 10 None
         (Sample.scan_open 7) p1 = Ok p2
    /\ steering_options_ p2 = [0x1p+62%float; 0x1p+62%float].
Proof.
  eexists. eexists. split; [vm_compute; reflexivity|].
  split; [reflexivity|]. split; [vm_compute; reflexivity|]. reflexivity.
Qed.

(* ------------------------------------------------------------------------- *)
(** ** C3 and C4: the waypoint selector *)

Lemma vec_get_fault {A : Type} (v : list A) (i : Z) (f : fault) :
  vec_get v i = Fail f -> f = UndefinedBehaviour.
Proof.
  unfold vec_get. destruct ((0 <=? i) && (i <? Z.of_nat (length v))).
  - destruct (v !! Z.to_nat i); congruence.
  - congruence.
Qed.

Lemma for_each_fault {A S : Type} (body : A -> S -> outcome S) (l : list A) :
  (forall a s f, body a s = Fail f -> f = UndefinedBehaviour) ->
  forall s f, for_each body l s = Fail f -> f = UndefinedBehaviour.
Proof.
  intros Hbody. induction l as [|a l IH]; intros s f H; [discriminate|].
  cbn [for_each] in H. destruct (body a s) as [s'|f'] eqn:E.
  - rewrite bind_Ok in H. eapply IH; eauto.
  - injection H as <-. eapply Hbody; eauto.
Qed.

Section Selector.

Variable doTransform : Transform -> float * float -> float * float.
Variable getMapIdx : float -> float -> Z.
Variable lookahead_d_ : float.

Lemma candidate_unfold (p : Planner) (j i : Z) (waypoint_d : float)
    (waypoint_idx : Z) :
  candidate doTransform getMapIdx lookahead_d_ p j i (waypoint_d, waypoint_idx) =
  vec_get (global_path_ p) i ≫= fun track =>
  vec_get track j ≫= fun w =>
  let '(gx, gy) := doTransform (tf_map_to_laser_ p) (wp_x w, wp_x w) in
  if (gx <? 0)%float then Ok (waypoint_d, waypoint_idx)
  else
    let diff :=
      PrimFloat.abs (lookahead_d_ - PrimFloat.sqrt (gx * gx + gy * gy))%float in
    if (diff <? waypoint_d)%float then
      vec_get (data (input_map_ p)) (getMapIdx (wp_x w) (wp_y w)) ≫= fun v =>
      if v =? 100 then Ok (waypoint_d, waypoint_idx) else Ok (diff, j)
    else Ok (waypoint_d, waypoint_idx).
Proof. reflexivity. Qed.

(** The only way the body of the inner loop fails is an index out of range. *)
Lemma candidate_fault (p : Planner) (j i : Z) (s : float * Z) (f : fault) :
  candidate doTransform getMapIdx lookahead_d_ p j i s = Fail f ->
  f = UndefinedBehaviour.
Proof.
  destruct s as [waypoint_d waypoint_idx]. rewrite candidate_unfold.
  destruct (vec_get (global_path_ p) i) as [track|f1] eqn:E1;
    [rewrite bind_Ok | intros [= <-]; eapply vec_get_fault; eauto].
  destruct (vec_get track j) as [w|f2] eqn:E2;
    [rewrite bind_Ok | intros [= <-]; eapply vec_get_fault; eauto].
  destruct (doTransform _ _) as [gx gy].
  destruct (gx <? 0)%float; [discriminate|]. cbv zeta.
  destruct (_ <? waypoint_d)%float; [|discriminate].
  destruct (vec_get (data (input_map_ p)) _) as [v|f3] eqn:E3;
    [rewrite bind_Ok | intros [= <-]; eapply vec_get_fault; eauto].
  destruct (v =? 100); discriminate.
Qed.

(** A candidate behind the vehicle, or whose cell is OCCUPIED, leaves the
    running best as it was: for a trajectory with no admissible candidate
    [waypoint_idx] is still the -1 of line 448 when line 477 uses it. *)
Lemma candidate_rejected (p : Planner) (j i : Z) (track : list Waypoint)
    (w : Waypoint) (s : float * Z) :
  vec_get (global_path_ p) i = Ok track -> vec_get track j = Ok w ->
  (fst (doTransform (tf_map_to_laser_ p) (wp_x w, wp_x w)) <? 0)%float = true
  \/ vec_get (data (input_map_ p)) (getMapIdx (wp_x w) (wp_y w)) = Ok OCCUPIED ->
  candidate doTransform getMapIdx lookahead_d_ p j i s = Ok s.
Proof.
  intros Ht Hw H. destruct s as [waypoint_d waypoint_idx].
  rewrite candidate_unfold, Ht, bind_Ok, Hw, bind_Ok.
  destruct (doTransform _ _) as [gx gy]. simpl in H.
  destruct (gx <? 0)%float; [reflexivity|]. cbv zeta.
  destruct H as [H|H]; [discriminate|].
  destruct (_ <? waypoint_d)%float; [|reflexivity].
  rewrite H, bind_Ok. reflexivity.
Qed.

(** The waypoint's own y takes no part in the transform (line 454 copies
    x): two waypoints with the same x and the same map cell are one and
    the same candidate. *)
Lemma candidate_ignores_y (p q : Planner) (w w' : Waypoint) (s : float * Z) :
  global_path_ p = [[w]] -> global_path_ q = [[w']] ->
  tf_map_to_laser_ p = tf_map_to_laser_ q -> input_map_ p = input_map_ q ->
  wp_x w = wp_x w' ->
  getMapIdx (wp_x w) (wp_y w) = getMapIdx (wp_x w') (wp_y w') ->
  candidate doTransform getMapIdx lookahead_d_ p 0 0 s
  = candidate doTransform getMapIdx lookahead_d_ q 0 0 s.
Proof.
  intros Hp Hq Ht Hm Hx Hc. destruct s as [waypoint_d waypoint_idx].
  rewrite !candidate_unfold, Hp, Hq, Ht, Hm. cbn [vec_get length].
  simpl. rewrite Hc, Hx. reflexivity.
Qed.

(** Whatever the inner loop found, line 477 indexes [global_path_] with an
    [i] that the inner loop has driven to its size. *)
Lemma track_body_undefined (p : Planner) (i : Z) (waypoints : list Waypoint) :
  track_body doTransform getMapIdx lookahead_d_ p i waypoints
  = Fail UndefinedBehaviour.
Proof.
  unfold track_body. cbv zeta.
  destruct (for_each _ _ _) as [[waypoint_d waypoint_idx]|f] eqn:E.
  - rewrite bind_Ok. cbv beta iota.
    rewrite vec_get_out_of_range by lia. reflexivity.
  - apply for_each_fault in E; [subst f; reflexivity|].
    intros a s f'. apply candidate_fault.
Qed.

(** With a trajectory to search, the loop of line 445 fails in its first
    round. *)
Lemma tracks_loop_undefined (n : positive) (fuel : nat) (p : Planner) :
  tracks_loop doTransform getMapIdx lookahead_d_ (Z.pos n) (S fuel) p 0 []
  = Fail UndefinedBehaviour.
Proof.
  cbn [tracks_loop].
  assert (E : (0 <? Z.pos n) = true) by (apply Z.ltb_lt; lia).
  rewrite E, track_body_undefined. reflexivity.
Qed.

(** C4: the code does not do what the claim says.  As soon as there is a
    trajectory to search ([path_num_] is positive) [findWaypoints] returns
    nothing at all: the inner loop of line 450 tests and increments [i]
    instead of [j], so only waypoint 0 of each track is ever looked at, and
    line 477 then reads [global_path_[i]] with [i] past the last track.
    This holds for every transform, map, path and lookahead distance. *)
Theorem findWaypoints_undefined (n : positive) (lookup : lookup_answer)
    (p : Planner) :
  findWaypoints doTransform getMapIdx lookahead_d_ (Z.pos n) lookup p
  = Fail UndefinedBehaviour.
Proof.
  unfold findWaypoints. rewrite tracks_loop_undefined. reflexivity.
Qed.

(** C3: the code does not do what the claim says.  The selector, as the
    odometry callback runs it, never returns a waypoint or a no-waypoint
    signal.  With a trajectory to search [findWaypoints] is undefined
    before it has pushed anything; with none, [checkFeasibility] transforms
    its (empty) options and runs off its end without a [return]. *)
Theorem egoOdomCallback_never_returns (path_num_ : Z)
    (lookup1 lookup2 : lookup_answer) (p : Planner) :
  egoOdomCallback doTransform getMapIdx lookahead_d_ path_num_ lookup1 lookup2 p
  = Fail UndefinedBehaviour.
Proof.
  unfold egoOdomCallback, findWaypoints.
  destruct path_num_ as [|n|n].
  - cbn [tracks_loop Z.ltb Z.compare]. rewrite !bind_Ok. reflexivity.
  - rewrite tracks_loop_undefined. reflexivity.
  - cbn [tracks_loop Z.ltb Z.compare]. rewrite !bind_Ok. reflexivity.
Qed.

End Selector.

(* ------------------------------------------------------------------------- *)
(** * Further properties of the code *)

(** ** The order of doubles *)

Lemma SFltb_irrefl (a : spec_float) : SFltb a a = false.
Proof.
  unfold SFltb. destruct a as [s|s| |s m e]; simpl; try reflexivity.
  - destruct s; reflexivity.
  - destruct s; rewrite Z.compare_refl;
      change (Pos.compare_cont Eq m m) with (Pos.compare m m);
      rewrite Pos.compare_refl; reflexivity.
Qed.

Lemma SFltb_trans (a b c : spec_float) :
  SFltb a b = true -> SFltb b c = true -> SFltb a c = true.
Proof.
  unfold SFltb.
  destruct a as [sa|sa| |sa ma ea], b as [sb|sb| |sb mb eb],
           c as [sc|sc| |sc mc ec]; simpl;
    try discriminate; try reflexivity;
    try (destruct sa; try discriminate; try reflexivity);
    try (destruct sb; try discriminate; try reflexivity);
    try (destruct sc; try discriminate; try reflexivity);
    try (intros; assumption).
  all: change (Pos.compare_cont Eq ma mb) with (Pos.compare ma mb);
    change (Pos.compare_cont Eq mb mc) with (Pos.compare mb mc);
    change (Pos.compare_cont Eq ma mc) with (Pos.compare ma mc);
    destruct (Z.compare_spec ea eb), (Z.compare_spec eb ec),
      (Z.compare_spec ea ec); try discriminate; try reflexivity; try lia;
    destruct (Pos.compare_spec ma mb), (Pos.compare_spec mb mc),
      (Pos.compare_spec ma mc); simpl; try discriminate; try reflexivity;
    try lia; subst; try lia.
Qed.

Lemma ltb_irrefl (x : float) : (x <? x)%float = false.
Proof. rewrite ltb_spec. apply SFltb_irrefl. Qed.

Lemma ltb_trans (x y z : float) :
  (x <? y)%float = true -> (y <? z)%float = true -> (x <? z)%float = true.
Proof. rewrite !ltb_spec. apply SFltb_trans. Qed.

(** ** [closestPoint] and the filter of [scanCallback] *)

Lemma min_element_from_spec (l : list float) :
  forall (pre : list float) (best : Z) (smallest : float),
    pre !! Z.to_nat best = Some smallest -> 0 <= best ->
    (forall y, y ∈ pre -> (y <? smallest)%float = false) ->
    exists v,
      vec_get (pre ++ l)
        (min_element_from best smallest (Z.of_nat (length pre)) l) = Ok v
      /\ forall y, y ∈ pre ++ l -> (y <? v)%float = false.
Proof.
  induction l as [|x l IH]; intros pre best smallest Hbest Hpos Hmin.
  - cbn [min_element_from]. rewrite app_nil_r. exists smallest. split; [|exact Hmin].
    apply vec_get_Ok. split; [|exact Hbest].
    apply lookup_lt_Some in Hbest. lia.
  - cbn [min_element_from].
    replace (pre ++ x :: l) with ((pre ++ [x]) ++ l) by (rewrite <- app_assoc; reflexivity).
    replace (Z.of_nat (length pre) + 1) with (Z.of_nat (length (pre ++ [x])))
      by (rewrite length_app; cbn [length]; lia).
    destruct (x <? smallest)%float eqn:E.
    + apply IH.
      * rewrite Nat2Z.id. rewrite lookup_app_r by lia.
        replace (length pre - length pre)%nat with O by lia. reflexivity.
      * lia.
      * intros y Hy. apply elem_of_app in Hy as [Hy|Hy].
        -- destruct (y <? x)%float eqn:Eyx; [|reflexivity].
           rewrite <- (Hmin y Hy). symmetry. eapply ltb_trans; eassumption.
        -- apply list_elem_of_singleton in Hy as ->. apply ltb_irrefl.
    + apply IH.
      * apply lookup_app_l_Some. exact Hbest.
      * exact Hpos.
      * intros y Hy. apply elem_of_app in Hy as [Hy|Hy]; [auto|].
        apply list_elem_of_singleton in Hy as ->. exact E.
Qed.

(** [closestPoint] of an array that is not empty is one of its indices, and
    no reading of the array is below the reading it points at.  (NaN
    readings compare below nothing.) *)
Theorem closestPoint_minimal (scan_ranges : list float) :
  scan_ranges <> [] ->
  exists v,
    vec_get scan_ranges (closestPoint scan_ranges) = Ok v
    /\ forall y, y ∈ scan_ranges -> (y <? v)%float = false.
Proof.
  destruct scan_ranges as [|x l]; [congruence|]. intros _.
  unfold closestPoint.
  apply (min_element_from_spec l [x] 0 x); [reflexivity | lia |].
  intros y ->%list_elem_of_singleton. apply ltb_irrefl.
Qed.

Lemma closestPoint_minimal_witness :
  exists v,
    vec_get [3; 1; 2; 1]%float (closestPoint [3; 1; 2; 1]%float) = Ok v
    /\ forall y, y ∈ [3; 1; 2; 1]%float -> (y <? v)%float = false.
Proof.
  apply (closestPoint_minimal [3; 1; 2; 1]%float). discriminate.
Defined.



(** ** What the gap follower does when it does return *)

Lemma eliminateBubble_window_witness :
  exists l',
    eliminateBubble 0.5 (Sample.planner_windowed 7)
      [3; 3; 3; 1; 3; 3; 3]%float 3 1 = Ok l'
    /\ length l' = length [3; 3; 3; 1; 3; 3; 3]%float
    /\ forall k : Z, 0 <= k ->
         l' !! Z.to_nat k
         = if (1 <=? k) && (k <? 5) then Some 0%float
           else [3; 3; 3; 1; 3; 3; 3]%float !! Z.to_nat k.
Proof.
  apply (eliminateBubble_window 0.5 (Sample.planner_windowed 7)
           [3; 3; 3; 1; 3; 3; 3]%float 3 1 1 5).
  - vm_compute. reflexivity.
  - vm_compute. reflexivity.
  - vm_compute. split; [reflexivity | discriminate].
Defined.

Section GapResult.

Variables gap_size_threshold_ gap_threshold_ : float.

(** On an array whose every reading is above the gap-distance threshold
    the search returns after one run (two tests of line 408): the whole
    array is one gap, accepted when its length exceeds the gap-size
    threshold, and its index is the middle [(n - 1) / 2]. *)
Theorem findbestGapIdx_all_open_result (scan_ranges : list float) (fuel : nat) :
  let n := Z.of_nat (length scan_ranges) in
  Forall (fun x => (gap_threshold_ <? x)%float = true) scan_ranges ->
  0 < n <= INT_MAX ->
  findbestGapIdx gap_size_threshold_ gap_threshold_ (S (S fuel)) scan_ranges
  = Ok (if (gap_size_threshold_ <? to_double n)%float then [(n - 1) / 2]
        else []).
Proof.
  intros n Hall Hn. unfold findbestGapIdx. cbn [gap_loop].
  assert (E : (0 <? Z.of_nat (length scan_ranges)) = true)
    by (apply Z.ltb_lt; lia).
  rewrite E. unfold gap_body. rewrite Z2Nat.inj_0, drop_0.
  rewrite (gap_run_all_open gap_threshold_ scan_ranges 0 0 Hall).
  fold n. replace (0 + n) with n by lia.
  assert (Hge : (n <? n) = false) by (apply Z.ltb_ge; lia).
  destruct (gap_size_threshold_ <? to_double n)%float; rewrite Hge; [|reflexivity].
  do 2 f_equal. cbn [app]. f_equal.
  unfold INT_MAX in Hn.
  replace (0 + 0 + n - 1) with (n - 1) by lia.
  unfold wrap_size_t. rewrite (Z.mod_small (n - 1)) by lia.
  apply wrap_int_small. unfold INT_MIN, INT_MAX.
  assert (0 <= (n - 1) / 2 <= n - 1); [|lia].
  split; [apply Z.div_pos; lia | apply Z.div_le_upper_bound; lia].
Qed.

End GapResult.

Lemma findbestGapIdx_all_open_result_witness :
  findbestGapIdx 2 1 2 [10; 10; 10; 10; 10; 10]%float
  = Ok (if (2 <? to_double 6)%float then [(6 - 1) / 2] else []).
Proof.
  apply (findbestGapIdx_all_open_result 2 1 [10; 10; 10; 10; 10; 10]%float 0).
  - repeat constructor.
  - vm_compute. split; [reflexivity | discriminate].
Defined.

(** The heading of line 238 for a gap index [best] of an array of [size]
    readings: the difference with the middle [size / 2] is taken in
    [size_t], so an index left of the middle does not give a negative
    angle but the increment times [2^64 - (size/2 - best)]; an index at or
    right of the middle gives the increment times [best - size/2]. *)
Theorem steering_option_left_of_centre (p : Planner) (size best : Z) :
  0 <= best <= SIZE_MAX -> 0 <= size <= SIZE_MAX ->
  steering_option p size best
  = (angle_increment_ p
     * to_double (if best <? size / 2 then 2 ^ 64 - (size / 2 - best)
                  else best - size / 2)%Z)%float.
Proof.
  intros Hb Hs. unfold steering_option, wrap_size_t. unfold SIZE_MAX in Hs.
  assert (0 <= size / 2 <= size).
  { split; [apply Z.div_pos; lia | apply Z.div_le_upper_bound; lia]. }
  destruct (best <? size / 2) eqn:E.
  - apply Z.ltb_lt in E. do 2 f_equal.
    replace (best - size / 2) with ((2 ^ 64 - (size / 2 - best)) + (-1) * 2 ^ 64)
      by lia.
    rewrite Z.mod_add by lia. apply Z.mod_small. lia.
  - apply Z.ltb_ge in E. do 2 f_equal.
    apply Z.mod_small. unfold SIZE_MAX in Hb. lia.
Qed.

Lemma steering_option_left_of_centre_witness :
  steering_option (Sample.planner_windowed 6) 6 2
  = (angle_increment_ (Sample.planner_windowed 6)
     * to_double (if 2 <? 6 / 2 then 2 ^ 64 - (6 / 2 - 2) else 2 - 6 / 2)%Z)%float.
Proof.
  apply (steering_option_left_of_centre (Sample.planner_windowed 6) 6 2);
    vm_compute; split; discriminate.
Defined.

(** ** The window of [scanCallback] *)

Lemma bind_fault {A B : Type} (m : outcome A) (k : A -> outcome B) (f : fault) :
  m ≫= k = Fail f -> m = Fail f \/ exists a, m = Ok a /\ k a = Fail f.
Proof.
  intros H. destruct m as [a|f']; [right; eauto | left].
  injection H as <-. reflexivity.
Qed.

Lemma int_checked_fault (z : Z) (f : fault) :
  int_checked z = Fail f -> f = UndefinedBehaviour.
Proof. unfold int_checked. destruct (in_int z); congruence. Qed.

Lemma double_to_int_fault (x : float) (f : fault) :
  double_to_int x = Fail f -> f = UndefinedBehaviour.
Proof.
  unfold double_to_int. destruct (trunc x); [|congruence].
  destruct (in_int z); congruence.
Qed.

Lemma vec_set_fault {A : Type} (v : list A) (i : Z) (a : A) (f : fault) :
  vec_set v i a = Fail f -> f = UndefinedBehaviour.
Proof.
  unfold vec_set. destruct ((0 <=? i) && (i <? Z.of_nat (length v))); congruence.
Qed.

Ltac fault_step H :=
  apply bind_fault in H as [H|(? & _ & H)];
  [first [ exact (int_checked_fault _ _ H) | exact (double_to_int_fault _ _ H)
         | exact (vec_get_fault _ _ _ H) | exact (vec_set_fault _ _ _ _ H)
         | idtac ] |].

Section UpdateFaults.

Variables cos sin : float -> float.
Variable getYaw : Quaternion -> float.
Variable get_data : list (list Waypoint).
Variable inflation_r_ : Z.

Lemma expandObstacles_fault (x_map y_map : float) (p : Planner) (f : fault) :
  expandObstacles get_data inflation_r_ x_map y_map p = Fail f ->
  f = UndefinedBehaviour.
Proof.
  unfold expandObstacles. cbv zeta. intros H.
  do 4 fault_step H.
  fault_step H; [|discriminate].
  revert H. apply for_each_fault. clear. intros i acc f H.
  do 2 fault_step H. discriminate.
Qed.

Lemma mark_obstacle_fault (idx : Z) (p : Planner) (f : fault) :
  mark_obstacle idx p = Fail f -> f = UndefinedBehaviour.
Proof.
  unfold mark_obstacle. intros H. fault_step H.
  destruct (_ =? 100); [discriminate|]. fault_step H. discriminate.
Qed.

Lemma scan_step_fault (scan : LaserScan) (yaw : float) (i : Z)
    (s : Planner * float) (f : fault) :
  scan_step cos sin get_data inflation_r_ scan yaw i s = Fail f ->
  f = UndefinedBehaviour.
Proof.
  destruct s as [p theta]. rewrite scan_step_unfold. intros H.
  fault_step H. destruct (isnan _ || isinf _); [discriminate|].
  apply bind_fault in H as [H|([idxs p1] & _ & H)].
  - exact (expandObstacles_fault _ _ _ _ H).
  - apply bind_fault in H as [H|(? & _ & H)]; [|discriminate].
    revert H. apply for_each_fault. apply mark_obstacle_fault.
Qed.

Lemma decay_obstacles_fault (p : Planner) (f : fault) :
  decay_obstacles p = Fail f -> f = UndefinedBehaviour.
Proof.
  unfold decay_obstacles. intros H. fault_step H. cbv zeta in H.
  destruct (50 <? _); [|discriminate].
  apply bind_fault in H as [H|(? & _ & H)]; [|discriminate].
  revert H. apply for_each_fault. clear. intros idx p f H.
  unfold clear_obstacle in H. fault_step H. discriminate.
Qed.

(** An update neither throws nor loops: when it does not return, the
    program has left defined behaviour. *)
Lemma updateStaticMap_fault (lookup : lookup_answer) (scan : LaserScan)
    (p : Planner) (f : fault) :
  updateStaticMap cos sin getYaw get_data inflation_r_ lookup scan p = Fail f ->
  f = UndefinedBehaviour.
Proof.
  unfold updateStaticMap. cbv zeta. intros H.
  apply bind_fault in H as [H|([p1 th] & _ & H)].
  - revert H. apply for_each_fault. intros i s f'. apply scan_step_fault.
  - apply bind_fault in H as [H|(? & _ & H)]; [|discriminate].
    exact (decay_obstacles_fault _ _ H).
Qed.

End UpdateFaults.

Section ScanWindow.

Variables bubble_radius_ gap_size_threshold_ gap_threshold_ max_scan_ : float.
Variables cos sin : float -> float.
Variable getYaw : Quaternion -> float.
Variable get_data : list (list Waypoint).
Variable inflation_r_ : Z.

Lemma updateStaticMap_truncate (lookup : lookup_answer) (scan : LaserScan)
    (p p' : Planner) :
  updateStaticMap cos sin getYaw get_data inflation_r_ lookup scan p = Ok p' ->
  truncate_ p' = truncate_ p /\ start_idx_ p' = start_idx_ p
  /\ end_idx_ p' = end_idx_ p /\ angle_increment_ p' = angle_increment_ p.
Proof.
  intros H. apply updateStaticMap_inv in H as (F & _).
  unfold frame in F. injection F as _ E1 E2 E3 E4 _ _ _.
  destruct lookup; cbn in E1, E2, E3, E4; auto.
Qed.

(** The first scan fixes a window of [180 / span] times the number of
    readings, the span being in radians.  When half of that exceeds half of
    the number of readings, as it does for a span of a few radians, the
    start index [size/2 - truncate_size/2] wraps around in [size_t] to a
    value past the end index: the filter loop copies nothing and line 228
    reads [filtered_ranges[0]] of an empty vector.  The callback does not
    return. *)
Theorem scanCallback_window_wraps (fuel : nat) (lookup : lookup_answer)
    (scan_msg : LaserScan) (p : Planner) (truncate_size : Z) :
  truncate_ p = false ->
  window_size scan_msg = Ok truncate_size ->
  Z.of_nat (length (ranges scan_msg)) / 2 < truncate_size / 2 ->
  scanCallback bubble_radius_ gap_size_threshold_ gap_threshold_ max_scan_
    cos sin getYaw get_data inflation_r_ fuel lookup scan_msg p
  = Fail UndefinedBehaviour.
Proof.
  intros Ht Hw Hlt. unfold scanCallback.
  destruct (updateStaticMap cos sin getYaw get_data inflation_r_ lookup scan_msg p)
    as [p1|f] eqn:E1.
  2:{ apply updateStaticMap_fault in E1. subst f. reflexivity. }
  rewrite bind_Ok. apply updateStaticMap_truncate in E1 as (T1 & _).
  unfold truncate_window. rewrite T1, Ht. cbv zeta.
  unfold window_size in Hw. cbv zeta in Hw. rewrite Hw, !bind_Ok.
  set (size := Z.of_nat (length (ranges scan_msg))) in *.
  assert (Hb : 0 <= truncate_size <= SIZE_MAX).
  { unfold double_to_size_t in Hw. destruct (trunc _) as [z|]; [|discriminate].
    destruct ((0 <=? z) && (z <=? SIZE_MAX)) eqn:E; [|discriminate].
    injection Hw as <-. apply andb_true_iff in E as [?%Z.leb_le ?%Z.leb_le].
    lia. }
  unfold SIZE_MAX in Hb.
  assert (Hs : 0 <= size / 2) by (apply Z.div_pos; lia).
  assert (Ht2 : truncate_size / 2 < 2 ^ 63)
    by (apply Z.div_lt_upper_bound; lia).
  cbn [start_idx_ end_idx_ Upd.window Upd.log].
  rewrite int_range_nil.
  - cbn [for_each]. rewrite bind_Ok. reflexivity.
  - unfold wrap_size_t.
    replace (size / 2 - truncate_size / 2)
      with ((2 ^ 64 - (truncate_size / 2 - size / 2)) + (-1) * 2 ^ 64) by lia.
    rewrite Z.mod_add by lia.
    rewrite (Z.mod_small (2 ^ 64 - _)) by lia.
    rewrite Z.mod_small by lia. lia.
Qed.

(** A callback that returns leaves the window fixed; when it was entered
    with the window already fixed, the window and the increment it leaves
    are those it found.  A later scan of another size or increment does
    not change them. *)
Theorem scanCallback_window_latched (fuel : nat) (lookup : lookup_answer)
    (scan_msg : LaserScan) (p p' : Planner) :
  scanCallback bubble_radius_ gap_size_threshold_ gap_threshold_ max_scan_
    cos sin getYaw get_data inflation_r_ fuel lookup scan_msg p = Ok p' ->
  truncate_ p' = true
  /\ (truncate_ p = true ->
      start_idx_ p' = start_idx_ p /\ end_idx_ p' = end_idx_ p
      /\ angle_increment_ p' = angle_increment_ p).
Proof.
  unfold scanCallback. intros H.
  apply bind_Ok_inv in H as (p1 & H1 & H).
  apply bind_Ok_inv in H as (p2 & H2 & H).
  apply bind_Ok_inv in H as (filtered0 & _ & H).
  apply bind_Ok_inv in H as (closest_dist & _ & H).
  apply bind_Ok_inv in H as (filtered & _ & H).
  apply bind_Ok_inv in H as (best_idx & _ & [= <-]).
  apply updateStaticMap_truncate in H1 as (T1 & S1 & E1 & A1).
  cbn [truncate_ start_idx_ end_idx_ angle_increment_
       Upd.steering_options Upd.log].
  unfold truncate_window in H2. rewrite T1 in H2.
  destruct (truncate_ p) eqn:Tp.
  - injection H2 as <-. split; [congruence|]. intros _. auto.
  - apply bind_Ok_inv in H2 as (n & _ & [= <-]). split; [reflexivity|].
    discriminate.
Qed.

End ScanWindow.

(** Six readings over 3 rad, nothing in range: a window of 360 indices. *)
Lemma scanCallback_window_wraps_witness :
  scanCallback 0.125 2 1 10 Known.cos Known.sin Known.getYaw [] 1 10 None
    (mkLaserScan (-1.5) 1.5 0.5 (repeat infinity 6))
    (Sample.planner 0 Sample.tf_at_1_1)
  = Fail UndefinedBehaviour.
Proof.
  apply (scanCallback_window_wraps 0.125 2 1 10 Known.cos Known.sin
           Known.getYaw [] 1 10 None
           (mkLaserScan (-1.5) 1.5 0.5 (repeat infinity 6))
           (Sample.planner 0 Sample.tf_at_1_1) 360).
  - reflexivity.
  - vm_compute. reflexivity.
  - vm_compute. reflexivity.
Defined.

(** A scan of seven readings with an increment of 0.5 rad, on a planner
    whose window was fixed with an increment of 0.25 rad. *)
Lemma scanCallback_window_latched_witness :
  exists p',
    scanCallback 0.125 2 1 10 Known.cos Known.sin Known.getYaw [] 1 10 None
      (mkLaserScan (-90) 90 0.5 (repeat infinity 7))
      (Sample.planner_windowed 7) = Ok p'
    /\ truncate_ p' = true
    /\ (truncate_ (Sample.planner_windowed 7) = true ->
        start_idx_ p' = start_idx_ (Sample.planner_windowed 7)
        /\ end_idx_ p' = end_idx_ (Sample.planner_windowed 7)
        /\ angle_increment_ p' = angle_increment_ (Sample.planner_windowed 7)).
Proof.
  eexists. split; [vm_compute; reflexivity|].
  apply (scanCallback_window_latched 0.125 2 1 10 Known.cos Known.sin
           Known.getYaw [] 1 10 None
           (mkLaserScan (-90) 90 0.5 (repeat infinity 7))
           (Sample.planner_windowed 7)).
  vm_compute; reflexivity.
Defined.

(** ** The pending list and the cells beside it *)

Lemma mark_cells_marked (cells : list Z) (s : list Z * list Z) :
  NoDup (snd s) -> Forall (fun k => fst s !! Z.to_nat k = Some 100) (snd s) ->
  NoDup (snd (mark_cells cells s))
  /\ Forall (fun k => fst (mark_cells cells s) !! Z.to_nat k = Some 100)
            (snd (mark_cells cells s)).
Proof.
  unfold mark_cells. revert s.
  induction cells as [|c cells IH]; intros s Hn Hf; [auto|].
  cbn [fold_left]. apply IH; destruct s as [d pend]; simpl in *.
  - destruct (d !! Z.to_nat c) as [v|] eqn:E; [|exact Hn].
    destruct (v =? 100) eqn:Ev; simpl; [exact Hn|].
    apply NoDup_app. split; [exact Hn|]. split; [|apply NoDup_singleton].
    intros x Hx Hx'. apply list_elem_of_singleton in Hx'. subst x.
    rewrite Forall_forall in Hf. specialize (Hf c Hx).
    apply Z.eqb_neq in Ev. congruence.
  - destruct (d !! Z.to_nat c) as [v|] eqn:E; [|exact Hf].
    destruct (v =? 100) eqn:Ev; simpl; [exact Hf|].
    assert (Hlt : (Z.to_nat c < length d)%nat) by (eapply lookup_lt_Some; eauto).
    apply Forall_app. split.
    + eapply Forall_impl; [exact Hf|]. intros k Hk. cbv beta in *.
      destruct (decide (Z.to_nat c = Z.to_nat k)) as [Ek|Ek].
      * rewrite <- Ek. apply list_lookup_insert_eq. exact Hlt.
      * rewrite list_lookup_insert_ne by exact Ek. exact Hk.
    + constructor; [|constructor]. apply list_lookup_insert_eq. exact Hlt.
Qed.




(** Every cell after marking holds what it held, or 100. *)
Lemma mark_cells_lookup (cells : list Z) (s : list Z * list Z) (n : nat) :
  fst (mark_cells cells s) !! n = Some 100
  \/ fst (mark_cells cells s) !! n = fst s !! n.
Proof.
  unfold mark_cells. revert s.
  induction cells as [|c cells IH]; intros s; [right; reflexivity|].
  cbn [fold_left]. destruct (IH (mark_cell s c)) as [H|H]; [left; exact H|].
  rewrite H. destruct s as [d pend]; simpl.
  destruct (d !! Z.to_nat c) as [v|] eqn:E; [|right; reflexivity].
  destruct (v =? 100); simpl; [right; reflexivity|].
  destruct (decide (Z.to_nat c = n)) as [<-|Hne].
  - left. apply list_lookup_insert_eq. eapply lookup_lt_Some; eauto.
  - right. apply list_lookup_insert_ne. exact Hne.
Qed.

Section GridInvariants.

Variables cos sin : float -> float.
Variable getYaw : Quaternion -> float.
Variable get_data : list (list Waypoint).
Variable inflation_r_ : Z.

Let size (p : Planner) : Z := Z.of_nat (length (data (input_map_ p))).

(** The pending list never holds a cell twice and holds OCCUPIED cells
    only: an update keeps both, so the decay of lines 340-343 frees each
    pending cell once and frees no cell that was not marked by a scan. *)
Theorem updateStaticMap_pending_marked (lookup : lookup_answer)
    (scan : LaserScan) (p : Planner) (cells : list Z) :
  pending_ok p -> pending_marked p ->
  INT_MIN <= clear_obstacles_count_ p + 1 <= INT_MAX ->
  scan_cells cos sin getYaw inflation_r_
    (tf_in_force lookup (tf_laser_to_map_ p)) (info (input_map_ p)) scan
    = Ok cells ->
  forallb (in_grid (size p)) cells = true ->
  exists p',
    updateStaticMap cos sin getYaw get_data inflation_r_ lookup scan p = Ok p'
    /\ pending_ok p' /\ pending_marked p'.
Proof.
  intros Hok [Hn Hf] Hc Hcells Hall.
  destruct (update_step cos sin getYaw get_data inflation_r_ lookup scan p
              cells Hok Hc Hcells Hall)
    as (p' & E & D & P & _ & _ & _ & _ & Hok' & _).
  exists p'. split; [exact E|]. split; [exact Hok'|].
  unfold pending_marked, cell, OCCUPIED. rewrite D, P.
  unfold update_cells, grid_state.
  destruct (mark_cells_marked cells (data (input_map_ p), new_obstacles_ p) Hn Hf)
    as [Hn' Hf'].
  destruct (mark_cells cells (data (input_map_ p), new_obstacles_ p)) as [d1 p1].
  simpl in Hn', Hf'.
  destruct (50 <? clear_obstacles_count_ p + 1); simpl.
  - split; [apply NoDup_nil_2 | constructor].
  - split; assumption.
Qed.




End GridInvariants.

(** A first hit on fresh cells, then the pending list is [1; 5; 2; 6]. *)
Lemma updateStaticMap_pending_marked_witness :
  exists p',
    updateStaticMap Known.cos Known.sin Known.getYaw [] 1
      (Some Sample.tf_at_1_1) (Sample.scan_ahead 1)
      (Sample.planner 0 Sample.tf_at_1_1) = Ok p'
    /\ pending_ok p' /\ pending_marked p'.
Proof.
  apply (updateStaticMap_pending_marked Known.cos Known.sin Known.getYaw [] 1
           (Some Sample.tf_at_1_1) (Sample.scan_ahead 1)
           (Sample.planner 0 Sample.tf_at_1_1) [1; 5; 2; 6]).
  - constructor.
  - split; constructor.
  - vm_compute. split; discriminate.
  - vm_compute. reflexivity.
  - vm_compute. reflexivity.
Defined.




(** ** What an update reads and what it writes *)

Lemma written_from_refl (d : list Z) : written_from d d.
Proof. split; [reflexivity | auto]. Qed.

Lemma written_from_insert (d0 d : list Z) (i : nat) (v : Z) :
  v = 100 \/ v = 0 -> written_from d0 d -> written_from d0 (<[i := v]> d).
Proof.
  intros Hv [L K]. split; [rewrite length_insert; exact L|]. intros n.
  destruct (decide (i = n)) as [<-|Hne].
  - destruct (decide (i < length d)%nat) as [Hlt|Hge].
    + rewrite list_lookup_insert_eq by exact Hlt.
      destruct Hv as [->| ->]; auto.
    + rewrite list_insert_ge by lia. apply K.
  - rewrite list_lookup_insert_ne by exact Hne. apply K.
Qed.

Section UpdateReadsWrites.

Variables cos sin : float -> float.
Variable getYaw : Quaternion -> float.
Variable get_data : list (list Waypoint).
Variable inflation_r_ : Z.

(** The update reads the readings from index [n/6] up to [5n/6] and no
    other: two scans of the same length and angles that agree there are
    treated alike, whatever the other readings hold. *)
Theorem updateStaticMap_window_only (lookup : lookup_answer)
    (scan1 scan2 : LaserScan) (p : Planner) :
  angle_min scan1 = angle_min scan2 ->
  angle_increment scan1 = angle_increment scan2 ->
  length (ranges scan1) = length (ranges scan2) ->
  (forall i, scan_start scan1 <= i < scan_end scan1 ->
     vec_get (ranges scan1) i = vec_get (ranges scan2) i) ->
  updateStaticMap cos sin getYaw get_data inflation_r_ lookup scan1 p
  = updateStaticMap cos sin getYaw get_data inflation_r_ lookup scan2 p.
Proof.
  intros Hm Hi Hl Hr. unfold updateStaticMap. cbv zeta.
  assert (Es : scan_start scan2 = scan_start scan1)
    by (unfold scan_start; rewrite Hl; reflexivity).
  assert (Ee : scan_end scan2 = scan_end scan1)
    by (unfold scan_end; rewrite Hl; reflexivity).
  rewrite Es, Ee, <- Hm, <- Hi. f_equal.
  apply for_each_ext. intros i [q theta] Hin.
  apply elem_of_int_range in Hin.
  rewrite !scan_step_unfold, <- Hi, (Hr i Hin). reflexivity.
Qed.

(** A call of [expandObstacles] that returns has produced one index for
    each cell of a square of side [2 * inflation_r_], whatever the grid's
    size (none when the radius is 0 or less), has loaded the waypoint file
    again into [global_path_] and has left the grid and the pending list
    alone. *)
Theorem expandObstacles_count (x_map y_map : float) (p p' : Planner)
    (obstacleIdx : list Z) :
  expandObstacles get_data inflation_r_ x_map y_map p = Ok (obstacleIdx, p') ->
  length obstacleIdx
  = (Z.to_nat (2 * inflation_r_) * Z.to_nat (2 * inflation_r_))%nat
  /\ global_path_ p' = get_data
  /\ input_map_ p' = input_map_ p
  /\ new_obstacles_ p' = new_obstacles_ p.
Proof.
  rewrite expandObstacles_cells. intros H.
  apply bind_Ok_inv in H as (idxs & H & [= <- <-]).
  split; [|split; [reflexivity | split; reflexivity]].
  unfold obstacle_cells in H.
  apply bind_Ok_inv in H as (xi & _ & H).
  apply bind_Ok_inv in H as (yi & _ & H).
  apply bind_Ok_inv in H as (x_lo & ->%int_checked_inv & H).
  apply bind_Ok_inv in H as (x_hi & ->%int_checked_inv & H).
  assert (G : forall (l : list Z) (acc acc' : list Z),
             for_each
               (fun i obstacleIdx =>
                  y_lo ← int_checked (yi - inflation_r_);
                  y_hi ← int_checked (yi + inflation_r_);
                  Ok (obstacleIdx
                      ++ map (cell_index (width (info (input_map_ p))) i)
                             (int_range y_lo y_hi))) l acc = Ok acc' ->
             length acc'
             = (length acc + length l * Z.to_nat (2 * inflation_r_))%nat).
  { clear. induction l as [|a l IH]; intros acc acc' H.
    - injection H as <-. simpl. lia.
    - cbn [for_each] in H. apply bind_Ok_inv in H as (acc1 & H1 & H).
      apply IH in H. rewrite H. clear H IH.
      apply bind_Ok_inv in H1 as (y_lo & ->%int_checked_inv & H1).
      apply bind_Ok_inv in H1 as (y_hi & ->%int_checked_inv & [= <-]).
      rewrite length_app, length_map, length_int_range. cbn [length].
      replace (yi + inflation_r_ - (yi - inflation_r_)) with (2 * inflation_r_)
        by lia.
      lia. }
  apply G in H. rewrite H, length_int_range. cbn [length].
  replace (xi + inflation_r_ - (xi - inflation_r_)) with (2 * inflation_r_)
    by lia.
  lia.
Qed.

Lemma mark_obstacle_written (d0 : list Z) (idx : Z) (p p' : Planner) :
  mark_obstacle idx p = Ok p' ->
  written_from d0 (data (input_map_ p)) ->
  written_from d0 (data (input_map_ p')).
Proof.
  unfold mark_obstacle. intros H W.
  apply bind_Ok_inv in H as (v & _ & H). destruct (v =? 100).
  - injection H as <-. exact W.
  - apply bind_Ok_inv in H as (d & Hd & [= <-]). unfold vec_set in Hd.
    destruct ((0 <=? idx) && _); [|discriminate]. injection Hd as <-.
    apply written_from_insert; auto.
Qed.

Lemma scan_step_written (d0 : list Z) (scan : LaserScan) (yaw : float) (i : Z)
    (s s' : Planner * float) :
  scan_step cos sin get_data inflation_r_ scan yaw i s = Ok s' ->
  written_from d0 (data (input_map_ (fst s))) ->
  written_from d0 (data (input_map_ (fst s'))).
Proof.
  destruct s as [p theta]. rewrite scan_step_unfold. intros H W.
  apply bind_Ok_inv in H as (hit & _ & H).
  destruct (isnan hit || isinf hit).
  - injection H as <-. exact W.
  - rewrite expandObstacles_cells in H.
    apply bind_Ok_inv in H as ([idxs p1] & H1 & H).
    apply bind_Ok_inv in H1 as (idxs' & _ & [= <- <-]).
    apply bind_Ok_inv in H as (p2 & H2 & [= <-]).
    apply (for_each_invariant
             (fun q => written_from d0 (data (input_map_ q)))) in H2.
    + exact H2.
    + intros a q1 q2 _ W1 Hm. exact (mark_obstacle_written d0 a q1 q2 Hm W1).
    + exact W.
Qed.

(** An update that returns has not resized the grid nor touched its
    geometry, and has written no value but 100 and 0: every cell holds
    what it held, OCCUPIED or FREE.  The unknown cells (-1) of the map as
    loaded stay unknown unless a scan hits them. *)
Theorem updateStaticMap_cell_values (lookup : lookup_answer)
    (scan : LaserScan) (p p' : Planner) :
  updateStaticMap cos sin getYaw get_data inflation_r_ lookup scan p = Ok p' ->
  info (input_map_ p') = info (input_map_ p)
  /\ length (data (input_map_ p')) = length (data (input_map_ p))
  /\ forall k : Z,
       cell (input_map_ p') k = cell (input_map_ p) k
       \/ cell (input_map_ p') k = Some OCCUPIED
       \/ cell (input_map_ p') k = Some FREE.
Proof.
  intros H.
  assert (Hi : info (input_map_ p') = info (input_map_ p)).
  { pose proof (updateStaticMap_inv _ _ _ _ _ _ _ _ _ H) as (F & _).
    unfold frame in F. injection F as _ _ _ _ _ E _ _.
    rewrite E. destruct lookup; reflexivity. }
  split; [exact Hi|].
  cut (written_from (data (input_map_ p)) (data (input_map_ p'))).
  { intros [L K]. split; [exact L|]. intros k. apply K. }
  unfold updateStaticMap in H. cbv zeta in H.
  set (p0 := lookup_laser_to_map lookup p) in H.
  assert (D0 : data (input_map_ p0) = data (input_map_ p))
    by (destruct lookup; reflexivity).
  apply bind_Ok_inv in H as ([p1 th1] & H1 & H).
  apply bind_Ok_inv in H as (p2 & H2 & [= <-]).
  apply (for_each_invariant
           (fun s => written_from (data (input_map_ p))
                       (data (input_map_ (fst s))))) in H1.
  2:{ intros i s1 s2 _ W Hs. exact (scan_step_written _ _ _ _ _ _ Hs W). }
  2:{ simpl. rewrite D0. apply written_from_refl. }
  simpl in H1. unfold decay_obstacles in H2.
  apply bind_Ok_inv in H2 as (c & _ & H2). cbv zeta in H2.
  change (data (input_map_ (Upd.log _ (Upd.publish_map p2))))
    with (data (input_map_ p2)).
  destruct (50 <? c).
  - apply bind_Ok_inv in H2 as (p3 & H3 & [= <-]).
    change (written_from (data (input_map_ p)) (data (input_map_ p3))).
    apply (for_each_invariant
             (fun q => written_from (data (input_map_ p))
                         (data (input_map_ q)))) in H3; [exact H3 | | exact H1].
    intros a q1 q2 _ W Hc. unfold clear_obstacle in Hc.
    apply bind_Ok_inv in Hc as (d & Hd & [= <-]). unfold vec_set in Hd.
    destruct ((0 <=? a) && _); [|discriminate]. injection Hd as <-.
    apply written_from_insert; auto.
  - injection H2 as <-. exact H1.
Qed.

(** The counter of a run of updates that returns, entered in [0, 50]: it
    counts the updates modulo 51, so the decay runs at every 51st update;
    and every update has published one grid. *)
Theorem run_updates_counter_mod (inputs : list (lookup_answer * LaserScan)) :
  forall p p' : Planner,
    0 <= clear_obstacles_count_ p <= 50 ->
    run_updates cos sin getYaw get_data inflation_r_ inputs p = Ok p' ->
    clear_obstacles_count_ p'
    = (clear_obstacles_count_ p + Z.of_nat (length inputs)) mod 51
    /\ length (map_pub_ p') = (length (map_pub_ p) + length inputs)%nat.
Proof.
  unfold run_updates.
  induction inputs as [|[lookup scan] rest IH]; intros p p' Hc H.
  - injection H as <-. cbn [length]. rewrite Z.mod_small by lia.
    split; lia.
  - cbn [for_each] in H. apply bind_Ok_inv in H as (p1 & H1 & H).
    apply updateStaticMap_inv in H1 as (_ & C & M & _).
    assert (C1 : clear_obstacles_count_ p1 = (clear_obstacles_count_ p + 1) mod 51).
    { rewrite C. destruct (50 <? clear_obstacles_count_ p + 1) eqn:E.
      - apply Z.ltb_lt in E.
        replace (clear_obstacles_count_ p + 1) with 51 by lia. reflexivity.
      - apply Z.ltb_ge in E. rewrite Z.mod_small by lia. reflexivity. }
    apply IH in H.
    2:{ rewrite C1. pose proof (Z.mod_pos_bound (clear_obstacles_count_ p + 1) 51).
        lia. }
    destruct H as [Hcount Hpub]. split.
    + rewrite Hcount, C1, Z.add_mod_idemp_l by lia. f_equal. cbn [length]. lia.
    + rewrite Hpub, M, length_app. cbn [length]. lia.
Qed.

End UpdateReadsWrites.

(** The readings at index 0 and 5 of six are outside the part read. *)
Lemma updateStaticMap_window_only_witness :
  updateStaticMap Known.cos Known.sin Known.getYaw [] 1
    (Some Sample.tf_at_1_1) (Sample.scan_ahead 1)
    (Sample.planner 0 Sample.tf_at_1_1)
  = updateStaticMap Known.cos Known.sin Known.getYaw [] 1
      (Some Sample.tf_at_1_1)
      (mkLaserScan (-0.5) 2 0.5 [7; 1; nan; nan; nan; 0.5]%float)
      (Sample.planner 0 Sample.tf_at_1_1).
Proof.
  apply (updateStaticMap_window_only Known.cos Known.sin Known.getYaw [] 1
           (Some Sample.tf_at_1_1) (Sample.scan_ahead 1)
           (mkLaserScan (-0.5) 2 0.5 [7; 1; nan; nan; nan; 0.5]%float)
           (Sample.planner 0 Sample.tf_at_1_1)).
  - reflexivity.
  - reflexivity.
  - reflexivity.
  - intros i Hi. change (1 <= i < 5) in Hi.
    assert (Hc : i = 1 \/ i = 2 \/ i = 3 \/ i = 4) by lia.
    destruct Hc as [-> | [-> | [-> | ->]]]; reflexivity.
Defined.

(** A hit in cell (1, 1) of the 4 x 4 map with a radius of 1: four cells. *)
Lemma expandObstacles_count_witness :
  exists obstacleIdx p',
    expandObstacles [] 1 1.5 1.5 (Sample.planner 0 Sample.tf_at_1_1)
      = Ok (obstacleIdx, p')
    /\ length obstacleIdx = (Z.to_nat (2 * 1) * Z.to_nat (2 * 1))%nat
    /\ global_path_ p' = []
    /\ input_map_ p' = input_map_ (Sample.planner 0 Sample.tf_at_1_1)
    /\ new_obstacles_ p' = new_obstacles_ (Sample.planner 0 Sample.tf_at_1_1).
Proof.
  eexists. eexists. split; [vm_compute; reflexivity|].
  apply (expandObstacles_count [] 1 1.5 1.5 (Sample.planner 0 Sample.tf_at_1_1)).
  vm_compute. reflexivity.
Defined.

Lemma updateStaticMap_cell_values_witness :
  exists p',
    updateStaticMap Known.cos Known.sin Known.getYaw [] 1
      (Some Sample.tf_at_1_1) (Sample.scan_ahead 1)
      (Sample.planner 50 Sample.tf_at_1_1) = Ok p'
    /\ info (input_map_ p') = info (input_map_ (Sample.planner 50 Sample.tf_at_1_1))
    /\ length (data (input_map_ p'))
       = length (data (input_map_ (Sample.planner 50 Sample.tf_at_1_1)))
    /\ forall k : Z,
         cell (input_map_ p') k
         = cell (input_map_ (Sample.planner 50 Sample.tf_at_1_1)) k
         \/ cell (input_map_ p') k = Some OCCUPIED
         \/ cell (input_map_ p') k = Some FREE.
Proof.
  eexists. split; [vm_compute; reflexivity|].
  apply (updateStaticMap_cell_values Known.cos Known.sin Known.getYaw [] 1
           (Some Sample.tf_at_1_1) (Sample.scan_ahead 1)
           (Sample.planner 50 Sample.tf_at_1_1)).
  vm_compute. reflexivity.
Defined.

(** Sixty empty scans from a counter of 45: the decay has run once. *)
Lemma run_updates_counter_mod_witness :
  exists p',
    run_updates Known.cos Known.sin Known.getYaw [] 1
      (repeat (None, Sample.scan_open 6) 60)
      (Sample.planner 45 Sample.tf_at_1_1) = Ok p'
    /\ clear_obstacles_count_ p'
       = (clear_obstacles_count_ (Sample.planner 45 Sample.tf_at_1_1) + 60) mod 51
    /\ length (map_pub_ p')
       = (length (map_pub_ (Sample.planner 45 Sample.tf_at_1_1)) + 60)%nat.
Proof.
  eexists. split; [vm_compute; reflexivity|].
  apply (run_updates_counter_mod Known.cos Known.sin Known.getYaw [] 1
           (repeat (None, Sample.scan_open 6) 60)
           (Sample.planner 45 Sample.tf_at_1_1)).
  - vm_compute. split; discriminate.
  - vm_compute. reflexivity.
Defined.

(** ** The waypoint selector, loop by loop *)

(** A waypoint 3 m behind the map's origin, seen from a laser at (1, 1):
    2 m behind the vehicle. *)
Lemma candidate_rejected_witness :
  candidate Known.doTransform Sample.getMapIdx 1
    (Sample.planner_on_track [mkWaypoint (-3) 1 0 0]) 0 0 (DBL_MAX, -1)
  = Ok (DBL_MAX, -1).
Proof.
  apply (candidate_rejected Known.doTransform Sample.getMapIdx 1
           (Sample.planner_on_track [mkWaypoint (-3) 1 0 0]) 0 0
           [mkWaypoint (-3) 1 0 0] (mkWaypoint (-3) 1 0 0) (DBL_MAX, -1)).
  - reflexivity.
  - reflexivity.
  - left. reflexivity.
Defined.

(** Two waypoints of the same cell, half a metre apart in y. *)
Lemma candidate_ignores_y_witness :
  candidate Known.doTransform Sample.getMapIdx 1
    (Sample.planner_on_track [mkWaypoint 1 1 0 0]) 0 0 (DBL_MAX, -1)
  = candidate Known.doTransform Sample.getMapIdx 1
      (Sample.planner_on_track [mkWaypoint 1 1.5 0 0]) 0 0 (DBL_MAX, -1).
Proof.
  apply (candidate_ignores_y Known.doTransform Sample.getMapIdx 1
           (Sample.planner_on_track [mkWaypoint 1 1 0 0])
           (Sample.planner_on_track [mkWaypoint 1 1.5 0 0])
           (mkWaypoint 1 1 0 0) (mkWaypoint 1 1.5 0 0) (DBL_MAX, -1));
    reflexivity.
Defined.

Section SelectorLoops.

Variable doTransform : Transform -> float * float -> float * float.
Variable getMapIdx : float -> float -> Z.
Variable lookahead_d_ : float.

(** The inner loop of line 450 never advances [j]: whatever the tracks
    hold, the index it leaves in [waypoint_idx] is the -1 of line 448 or 0.
    No waypoint of a track but its first is ever a candidate, and with no
    admissible candidate line 477 indexes the track with -1. *)
Theorem inner_loop_first_waypoint (p : Planner) (i : Z) (waypoint_d : float)
    (waypoint_idx : Z) :
  for_each (candidate doTransform getMapIdx lookahead_d_ p 0)
    (int_range i (Z.of_nat (length (global_path_ p)))) (DBL_MAX, -1)
  = Ok (waypoint_d, waypoint_idx) ->
  waypoint_idx = -1 \/ waypoint_idx = 0.
Proof.
  intros H.
  apply (for_each_invariant (fun s : float * Z => snd s = -1 \/ snd s = 0)) in H;
    [exact H | | left; reflexivity].
  intros a [d1 k1] [d2 k2] _ Hs Hc. rewrite candidate_unfold in Hc.
  apply bind_Ok_inv in Hc as (track & _ & Hc).
  apply bind_Ok_inv in Hc as (w & _ & Hc).
  destruct (doTransform _ _) as [gx gy].
  destruct (gx <? 0)%float; [injection Hc as <- <-; exact Hs|].
  cbv zeta in Hc. destruct (_ <? d1)%float; [|injection Hc as <- <-; exact Hs].
  apply bind_Ok_inv in Hc as (v & _ & Hc).
  destruct (v =? 100); injection Hc as <- <-; [exact Hs | right; reflexivity].
Qed.

(** With no trajectory to search ([path_num_] is 0 or less) the loop of
    line 445 is not entered: [findWaypoints] returns no waypoint, after
    the lookup of lines 433-441.  Together with C4 this is the only case
    in which it returns. *)
Theorem findWaypoints_no_tracks (path_num_ : Z) (lookup : lookup_answer)
    (p : Planner) :
  path_num_ <= 0 ->
  findWaypoints doTransform getMapIdx lookahead_d_ path_num_ lookup p
  = Ok ([], lookup_map_to_laser lookup p).
Proof.
  intros H. unfold findWaypoints. cbv zeta. cbn [tracks_loop].
  assert (E : (0 <? path_num_) = false) by (apply Z.ltb_ge; exact H).
  rewrite E. reflexivity.
Qed.

(** [checkFeasibility] hands no waypoint to its caller, whatever the
    options: the loop of lines 497-507 transforms each of them and compares
    nothing, and the function ends without a [return]. *)
Theorem checkFeasibility_no_return (lookup : lookup_answer)
    (waypoint_options : list Waypoint) (p : Planner) :
  checkFeasibility doTransform lookup waypoint_options p
  = Fail UndefinedBehaviour.
Proof.
  unfold checkFeasibility. cbv zeta.
  assert (E : forall l, for_each
                (fun (w : Waypoint) (_ : unit) => Ok ()) l () = Ok ()).
  { induction l as [|a l IH]; [reflexivity|]. cbn [for_each].
    rewrite bind_Ok. exact IH. }
  rewrite E. reflexivity.
Qed.

End SelectorLoops.

(** Two tracks; the first waypoint of the first lies ahead in a FREE
    cell. *)
Lemma inner_loop_first_waypoint_witness :
  exists waypoint_d waypoint_idx,
    for_each
      (candidate Known.doTransform Sample.getMapIdx 1
         (Upd.global_path
            [[mkWaypoint 1 1 0 0; mkWaypoint 2 2 0 0]; [mkWaypoint 0 0 0 0]]
            (Sample.planner 0 Sample.tf_at_1_1)) 0)
      (int_range 0 2) (DBL_MAX, -1)
    = Ok (waypoint_d, waypoint_idx)
    /\ (waypoint_idx = -1 \/ waypoint_idx = 0).
Proof.
  eexists. eexists. split; [vm_compute; reflexivity|].
  eapply (inner_loop_first_waypoint Known.doTransform Sample.getMapIdx 1
            (Upd.global_path
               [[mkWaypoint 1 1 0 0; mkWaypoint 2 2 0 0]; [mkWaypoint 0 0 0 0]]
               (Sample.planner 0 Sample.tf_at_1_1)) 0).
  vm_compute. reflexivity.
Defined.

Lemma findWaypoints_no_tracks_witness :
  findWaypoints Known.doTransform Sample.getMapIdx 1 0 None
    (Sample.planner 0 Sample.tf_at_1_1)
  = Ok ([], lookup_map_to_laser None (Sample.planner 0 Sample.tf_at_1_1)).
Proof.
  apply (findWaypoints_no_tracks Known.doTransform Sample.getMapIdx 1 0 None
           (Sample.planner 0 Sample.tf_at_1_1)).
  lia.
Defined.

(** ** A scan cycle that returns *)

Lemma double_to_size_t_fault (x : float) (f : fault) :
  double_to_size_t x = Fail f -> f = UndefinedBehaviour.
Proof.
  unfold double_to_size_t. destruct (trunc x); [|congruence].
  destruct ((0 <=? z) && (z <=? SIZE_MAX)); congruence.
Qed.

Lemma double_to_size_t_nonneg (x : float) (z : Z) :
  double_to_size_t x = Ok z -> 0 <= z.
Proof.
  unfold double_to_size_t. destruct (trunc x) as [z'|]; [|discriminate].
  destruct (0 <=? z') eqn:E; simpl; [|discriminate].
  destruct (z' <=? SIZE_MAX); [|discriminate]. intros [= <-].
  apply Z.leb_le in E. exact E.
Qed.

(** On an array that is not empty the [at] of line 394 never throws:
    the upper bound is cut down to the last index before the loop.  What
    can go wrong in [eliminateBubble] is the conversion of a bound that is
    negative, too large or no number to [size_t]. *)
Theorem eliminateBubble_never_throws (bubble_radius_ : float) (p : Planner)
    (scan_ranges : list float) (closest_idx : Z) (closest_dist : float)
    (f : fault) :
  0 < Z.of_nat (length scan_ranges) <= SIZE_MAX ->
  eliminateBubble bubble_radius_ p scan_ranges closest_idx closest_dist = Fail f ->
  f = UndefinedBehaviour.
Proof.
  intros Hsize. unfold eliminateBubble. cbv zeta. intros H.
  apply bind_fault in H as [H|(s & Hs & H)];
    [exact (double_to_size_t_fault _ _ H)|].
  apply bind_fault in H as [H|(e & He & H)];
    [exact (double_to_size_t_fault _ _ H)|].
  exfalso. apply double_to_size_t_nonneg in Hs.
  assert (E0 : (s <? 0) = false) by (apply Z.ltb_ge; exact Hs).
  rewrite E0 in H. unfold SIZE_MAX in Hsize.
  set (size := Z.of_nat (length scan_ranges)) in *.
  set (stop := if size <=? e then wrap_size_t (size - 1) else e) in H.
  assert (Hstop : stop <= size).
  { subst stop. destruct (size <=? e) eqn:E.
    - unfold wrap_size_t. rewrite Z.mod_small by lia. lia.
    - apply Z.leb_gt in E. lia. }
  destruct (zero_range_Ok (Z.to_nat (stop - s)) scan_ranges s stop eq_refl Hs Hstop)
    as (l' & El & _).
  rewrite El in H. discriminate.
Qed.

Section ScanCycle.

Variables bubble_radius_ gap_size_threshold_ gap_threshold_ max_scan_ : float.
Variables cos sin : float -> float.
Variable getYaw : Quaternion -> float.
Variable get_data : list (list Waypoint).
Variable inflation_r_ : Z.

Let open (x : float) : bool := (gap_threshold_ <? x)%float.

(** The search returns on no array but one whose every reading is open,
    and then with the middle of the array or with nothing. *)
Lemma findbestGapIdx_Ok_inv (fuel : nat) (scan_ranges : list float)
    (best_idx : list Z) :
  let n := Z.of_nat (length scan_ranges) in
  scan_ranges <> [] ->
  findbestGapIdx gap_size_threshold_ gap_threshold_ fuel scan_ranges
    = Ok best_idx ->
  Forall (fun x => open x = true) scan_ranges
  /\ best_idx
     = if (gap_size_threshold_ <? to_double n)%float
       then [wrap_int (wrap_size_t (n - 1) / 2)] else [].
Proof.
  intros n Hne H.
  assert (Hall : Forall (fun x => open x = true) scan_ranges).
  { apply Forall_forall. intros x Hin. destruct (open x) eqn:Hx; [reflexivity|].
    exfalso. revert H.
    destruct (first_not_open gap_threshold_ scan_ranges x Hin Hx)
      as (pre & y & rest & -> & Hpre & Hy).
    unfold findbestGapIdx. destruct fuel as [|fuel]; [discriminate|].
    cbn [gap_loop].
    assert (Hlt : (0 <? Z.of_nat (length (pre ++ y :: rest))) = true).
    { apply Z.ltb_lt. rewrite length_app. cbn [length]. lia. }
    rewrite Hlt. unfold gap_body. rewrite Z2Nat.inj_0, drop_0.
    rewrite (gap_run_prefix gap_threshold_ pre y rest 0 0 Hpre Hy).
    assert (Hlook : (pre ++ y :: rest) !! Z.to_nat (0 + Z.of_nat (length pre))
                    = Some y).
    { replace (Z.to_nat (0 + Z.of_nat (length pre))) with (length pre + 0)%nat
        by lia.
      rewrite lookup_app_r by lia.
      replace (length pre + 0 - length pre)%nat with O by lia. reflexivity. }
    destruct (gap_size_threshold_ <? to_double (0 + Z.of_nat (length pre)))%float;
      rewrite (gap_loop_stuck gap_size_threshold_ gap_threshold_ _ _ y);
      (discriminate || lia || assumption). }
  split; [exact Hall|].
  assert (Hn : 0 < n).
  { subst n. destruct scan_ranges; [congruence | cbn [length]; lia]. }
  assert (E : (0 <? Z.of_nat (length scan_ranges)) = true)
    by (apply Z.ltb_lt; exact Hn).
  assert (Hge : (0 + Z.of_nat (length scan_ranges)
                 <? Z.of_nat (length scan_ranges)) = false)
    by (apply Z.ltb_ge; lia).
  unfold findbestGapIdx in H. destruct fuel as [|[|fuel]]; [discriminate| |];
    cbn [gap_loop] in H; rewrite E in H; unfold gap_body in H;
    rewrite Z2Nat.inj_0, drop_0 in H;
    rewrite (gap_run_all_open gap_threshold_ scan_ranges 0 0 Hall) in H.
  - destruct (gap_size_threshold_ <? to_double _)%float; discriminate.
  - replace (0 + 0 + (0 + Z.of_nat (length scan_ranges)) - 1) with (n - 1) in H
      by (subst n; lia).
    replace (to_double (0 + Z.of_nat (length scan_ranges))) with (to_double n) in H
      by (subst n; f_equal; lia).
    destruct (gap_size_threshold_ <? to_double n)%float;
      rewrite Hge in H; injection H as <-; reflexivity.
Qed.

Lemma filtered_window_length (scan_msg : LaserScan) (p : Planner)
    (filtered_ranges : list float) :
  filtered_window max_scan_ scan_msg p = Ok filtered_ranges ->
  length filtered_ranges = Z.to_nat (end_idx_ p - start_idx_ p).
Proof.
  unfold filtered_window. rewrite <- length_int_range.
  generalize (int_range (start_idx_ p) (end_idx_ p)).
  change (length filtered_ranges)
    with (length (@nil float) + length filtered_ranges)%nat at 1.
  intros js. revert filtered_ranges.
  assert (G : forall (acc l : list float),
             for_each
               (fun i filtered_ranges =>
                  r ← vec_get (ranges scan_msg) i;
                  Ok (filtered_ranges ++ [filter_range max_scan_ r])) js acc
             = Ok l ->
             length l = (length acc + length js)%nat).
  { induction js as [|a js IH]; intros acc l H.
    - injection H as <-. cbn [length]. lia.
    - cbn [for_each] in H. apply bind_Ok_inv in H as (acc1 & H1 & H).
      apply bind_Ok_inv in H1 as (r & _ & [= <-]).
      apply IH in H. rewrite H, length_app. cbn [length]. lia. }
  intros l H. apply G in H. rewrite H. cbn [length]. lia.
Qed.

Lemma eliminateBubble_length (p : Planner) (scan_ranges : list float)
    (closest_idx : Z) (closest_dist : float) (l : list float) :
  eliminateBubble bubble_radius_ p scan_ranges closest_idx closest_dist = Ok l ->
  length l = length scan_ranges.
Proof.
  unfold eliminateBubble. cbv zeta. intros H.
  apply bind_Ok_inv in H as (s & _ & H).
  apply bind_Ok_inv in H as (e & _ & H).
  apply (for_each_invariant
           (fun v : list float => length v = length scan_ranges)) in H;
    [exact H | | reflexivity].
  intros a v1 v2 _ L Hv. unfold vec_set_at in Hv.
  destruct ((0 <=? a) && _); [|discriminate]. injection Hv as <-.
  rewrite length_insert. exact L.
Qed.

(** A callback that returns has added at most one heading.  Take the
    readings of the scan in the window, filtered and with the bubble zeroed
    ([bubbled_window], lines 207-230): there are as many as the window has
    indices, and, since the gap search returns on no other array, every one
    of them is above the gap-distance threshold.  The whole window is then
    one gap: the heading added is that of its middle index, and none is
    added when the window is not longer than the gap-size threshold. *)
Theorem scanCallback_one_heading (fuel : nat) (lookup : lookup_answer)
    (scan_msg : LaserScan) (p p' : Planner) :
  scanCallback bubble_radius_ gap_size_threshold_ gap_threshold_ max_scan_
    cos sin getYaw get_data inflation_r_ fuel lookup scan_msg p = Ok p' ->
  exists (p1 p2 : Planner) (filtered_ranges : list float),
    let n := Z.of_nat (length filtered_ranges) in
    updateStaticMap cos sin getYaw get_data inflation_r_ lookup scan_msg p
      = Ok p1
    /\ truncate_window scan_msg p1 = Ok p2
    /\ bubbled_window bubble_radius_ max_scan_ scan_msg p2 = Ok filtered_ranges
    /\ length filtered_ranges = Z.to_nat (end_idx_ p2 - start_idx_ p2)
    /\ Forall (fun x => (gap_threshold_ <? x)%float = true) filtered_ranges
    /\ steering_options_ p'
       = steering_options_ p
         ++ (if (gap_size_threshold_ <? to_double n)%float
             then [steering_option p2 n (wrap_int (wrap_size_t (n - 1) / 2))]
             else []).
Proof.
  rewrite scanCallback_stages. intros H.
  apply bind_Ok_inv in H as (p1 & H1 & H).
  apply bind_Ok_inv in H as (p2 & H2 & H).
  apply bind_Ok_inv in H as (headings & Hh & [= <-]).
  unfold cycle_headings in Hh.
  apply bind_Ok_inv in Hh as (filtered & Hb & Hh).
  apply bind_Ok_inv in Hh as (best_idx & Hbest & [= <-]).
  pose proof Hb as Hb'. unfold bubbled_window in Hb'.
  apply bind_Ok_inv in Hb' as (filtered0 & Hf & Hb').
  cbv zeta in Hb'.
  apply bind_Ok_inv in Hb' as (closest_dist & Hc & Hb').
  apply eliminateBubble_length in Hb'.
  apply filtered_window_length in Hf.
  assert (Hne : filtered <> []).
  { intros ->. destruct filtered0; [discriminate Hc | discriminate Hb']. }
  destruct (findbestGapIdx_Ok_inv fuel filtered best_idx Hne Hbest) as [Hall ->].
  exists p1, p2, filtered. cbv zeta.
  split; [exact H1|]. split; [exact H2|]. split; [exact Hb|].
  split; [congruence|]. split; [exact Hall|].
  cbn [steering_options_ Upd.steering_options].
  assert (S2 : steering_options_ p2 = steering_options_ p).
  { apply updateStaticMap_inv in H1 as (F1 & _).
    apply truncate_window_inv in H2. rewrite H2.
    transitivity (steering_options_ (lookup_laser_to_map lookup p)).
    - exact (f_equal (fun t => fst (fst (fst (fst (fst (fst (fst t))))))) F1).
    - destruct lookup; reflexivity. }
  rewrite S2. f_equal.
  destruct (gap_size_threshold_ <? to_double _)%float; reflexivity.
Qed.

End ScanCycle.

Lemma eliminateBubble_never_throws_witness :
  eliminateBubble 0.5 (Sample.planner_windowed 7)
    [3; 1; 3; 3; 3; 3; 3]%float 1 1 = Fail UndefinedBehaviour
  /\ UndefinedBehaviour = UndefinedBehaviour.
Proof.
  split; [vm_compute; reflexivity|].
  apply (eliminateBubble_never_throws 0.5 (Sample.planner_windowed 7)
           [3; 1; 3; 3; 3; 3; 3]%float 1 1 UndefinedBehaviour).
  - vm_compute. split; [reflexivity | discriminate].
  - vm_compute. reflexivity.
Defined.

Lemma scanCallback_one_heading_witness :
  exists p',
    scanCallback 0.125 2 1 10 Known.cos Known.sin Known.getYaw [] 1 10 None
      (Sample.scan_open 7) (Sample.planner 0 Sample.tf_at_1_1) = Ok p'
    /\ exists (p1 p2 : Planner) (filtered_ranges : list float),
         let n := Z.of_nat (length filtered_ranges) in
         updateStaticMap Known.cos Known.sin Known.getYaw [] 1 None
           (Sample.scan_open 7) (Sample.planner 0 Sample.tf_at_1_1) = Ok p1
         /\ truncate_window (Sample.scan_open 7) p1 = Ok p2
         /\ bubbled_window 0.125 10 (Sample.scan_open 7) p2 = Ok filtered_ranges
         /\ length filtered_ranges = Z.to_nat (end_idx_ p2 - start_idx_ p2)
         /\ Forall (fun x => (1 <? x)%float = true) filtered_ranges
         /\ steering_options_ p'
            = steering_options_ (Sample.planner 0 Sample.tf_at_1_1)
              ++ (if (2 <? to_double n)%float
                  then [steering_option p2 n (wrap_int (wrap_size_t (n - 1) / 2))]
                  else []).
Proof.
  eexists. split; [vm_compute; reflexivity|].
  apply (scanCallback_one_heading 0.125 2 1 10 Known.cos Known.sin Known.getYaw
           [] 1 10 None (Sample.scan_open 7)
           (Sample.planner 0 Sample.tf_at_1_1)).
  vm_compute; reflexivity.
Defined.
